(** * GPU-cluster scheduling simulator: policies and DQN helpers

    A shallow embedding of [simulator/utils.py] (job record builder,
    resource guard, lottery and fair-share policies) and of
    [simulator/rl_helpers.py] (replay buffer and DQN agent), with the
    properties the specification states about them.

    Conventions.
    - A job is a Python [dict] from field names to values: a
      [gmap string pyval].
    - An exception is a value [Raise e] of the result type [res].  A
      method of the agent that changes the agent before it may raise
      returns the agent as the call leaves it together with the outcome.
    - A finite Python [float] is modelled by the rational it denotes;
      [inf], [-inf] and [nan] are the other floats.  Operations that round
      (parsing a string, converting an int, multiplying, adding) are
      fields of the class [PyFloat], so every statement holds for whatever
      they compute.  An int that is converted to a float is taken to lie
      in the range of the floats.
    - Random draws are arguments: a function stands for the values the
      random source returns at each call.
    - A job list holds distinct dict objects ([_add_job] appends a fresh
      one per row), so a list of dict values stands for the list of
      references, and a function that mutates its argument in place
      returns the new value. *)

From Stdlib Require Import ZArith QArith Qround Qcanon Ascii String.
From stdpp Require Import gmap strings list fin_maps.

#[local] Set Warnings "-register-all".
Local Open Scope Z_scope.

(** ** Python values and exceptions *)

(** The exceptions raised; [NotModelled] is no Python exception, it
    marks the one place where the model does not follow Python (a [nan]
    used as a dict key). *)
Inductive exn :=
  | KeyError
  | TypeError
  | ValueError
  | IndexError
  | AttributeError
  | StopIteration
  | OverflowError
  | RuntimeError
  | NotModelled.

Inductive res (A : Type) :=
  | Ok (a : A)
  | Raise (e : exn).
Arguments Ok {A} a.
Arguments Raise {A} e.

#[global] Instance res_ret : MRet res := fun _ a => Ok a.
#[global] Instance res_bind : MBind res := fun _ _ f m =>
  match m with Ok a => f a | Raise e => Raise e end.
#[global] Instance res_fmap : FMap res := fun _ _ f m =>
  match m with Ok a => Ok (f a) | Raise e => Raise e end.

(** A [float]: a finite float is the rational it denotes. *)
Inductive pyfloat :=
  | Finite (q : Q)
  | Inf (negative : bool)
  | NaN.

Coercion Finite : Q >-> pyfloat.

(** Numbers: an [int] is unbounded. *)
Inductive pynum :=
  | NInt (z : Z)
  | NFloat (x : pyfloat).

Inductive pyval :=
  | VNone
  | VStr (s : string)
  | VNum (n : pynum)
  | VList (l : list pyval).

Abbreviation VInt z := (VNum (NInt z)).
Abbreviation VFloat x := (VNum (NFloat x)).

Abbreviation job := (gmap string pyval).

(** The exact place of a number among the floats and the rationals. *)
Definition num_float (n : pynum) : pyfloat :=
  match n with NInt z => Finite (inject_Z z) | NFloat x => x end.

(** [x < y]: every comparison with [nan] is false. *)
Definition float_lt (x y : pyfloat) : bool :=
  match x, y with
  | NaN, _ | _, NaN => false
  | Finite a, Finite b => negb (Qle_bool b a)
  | Finite _, Inf negative => negb negative
  | Inf negative, Finite _ => negative
  | Inf negative, Inf negative' => negative && negb negative'
  end.

(** [a < b] and [a > b] on numbers: Python compares ints and floats by value. *)
Definition num_lt (a b : pynum) : bool :=
  float_lt (num_float a) (num_float b).

Definition num_gt (a b : pynum) : bool := num_lt b a.

(** [v > limit] for an int [limit]; ordering a non-number against an int
    raises TypeError. *)
Definition py_gt (v : pyval) (limit : Z) : res bool :=
  match v with
  | VNum n => Ok (num_gt n (NInt limit))
  | _ => Raise TypeError
  end.

(** [d[key]] *)
Definition getitem (d : job) (key : string) : res pyval :=
  match d !! key with
  | Some v => Ok v
  | None => Raise KeyError
  end.

(** The argument of a [{:d}] format field must be an int. *)
Definition format_d (v : pyval) : res Z :=
  match v with
  | VInt z => Ok z
  | VNone => Raise TypeError
  | _ => Raise ValueError
  end.

(** ** Diagnostics *)

(** [_repr_job_concise] formats four fields with [%s]; the model keeps the
    four values that are formatted. *)
Record job_repr := JobRepr {
  repr_job_id : pyval;
  repr_num_gpu : pyval;
  repr_num_cpu : pyval;
  repr_duration : pyval
}.

Definition _repr_job_concise (job_dict : job) : res job_repr :=
  id ← getitem job_dict "job_id";
  g ← getitem job_dict "num_gpu";
  c ← getitem job_dict "num_cpu";
  d ← getitem job_dict "duration";
  Ok (JobRepr id g c d).

(** One call of [print_fn] at the default level: the message
    ["<job>: <what> <was> ==> <limit>"], kept as its format arguments. *)
Record diag := Diag {
  diag_job : job_repr;
  diag_what : string;
  diag_was : Z;
  diag_limit : Z
}.

(** ** Resource guard: [large_job_pruning] *)

(** One of the two [if] blocks of the loop body, for the field [key]. *)
Definition prune_field (key what : string) (limit : Z)
    (st : job * list diag) : res (job * list diag) :=
  let '(j, log) := st in
  match j !! key with
  | None => Ok (j, log)
  | Some v =>
      over ← py_gt v limit;
      if (over : bool) then
        let was := v in
        let j' := <[key := VInt limit]> j in
        r ← _repr_job_concise j';
        w ← format_d was;
        Ok (j', log ++ [Diag r what w limit])
      else Ok (j, log)
  end.

Definition prune_job (gpu_limit cpu_limit : Z)
    (st : job * list diag) : res (job * list diag) :=
  st1 ← prune_field "num_gpu" "GPU" gpu_limit st;
  prune_field "num_cpu" "CPU" cpu_limit st1.

(** The loop over the job list, threading the log. *)
Fixpoint prune_loop (gpu_limit cpu_limit : Z) (jobs : list job)
    (log : list diag) : res (list job * list diag) :=
  match jobs with
  | [] => Ok ([], log)
  | j :: rest =>
      '(j', log1) ← prune_job gpu_limit cpu_limit (j, log);
      '(rest', log2) ← prune_loop gpu_limit cpu_limit rest log1;
      Ok (j' :: rest', log2)
  end.

(** [job_list] is [None] or a list; the result is the list as mutated
    together with the diagnostics emitted. *)
Definition large_job_pruning (job_list : option (list job))
    (gpu_limit cpu_limit : Z) : res (list job * list diag) :=
  match job_list with
  | None => Ok ([], [])
  | Some jobs => prune_loop gpu_limit cpu_limit jobs []
  end.

(** ** Number conversions *)

(** What Python computes with rounding, or by parsing text, is left open:
    [float_of_str s] is [float(s)] ([None] when it raises ValueError),
    [int_of_str s] is [int(s)], [float_of_int n] is [float(n)], and
    [float_mul], [float_add] are the product and the sum of two finite
    floats, which is a finite float or, on overflow, an infinity. *)
Class PyFloat := {
  float_of_str : string -> option pyfloat;
  int_of_str : string -> option Z;
  float_of_int : Z -> Q;
  float_mul : Q -> Q -> pyfloat;
  float_add : Q -> Q -> pyfloat
}.

(** [int(x)] on a finite float truncates toward zero. *)
Definition Qtrunc (q : Q) : Z := Z.quot (Qnum q) (Zpos (Qden q)).

(** [int(x)] on a float: an infinity raises OverflowError, [nan] raises
    ValueError. *)
Definition float_int (x : pyfloat) : res Z :=
  match x with
  | Finite q => Ok (Qtrunc q)
  | Inf _ => Raise OverflowError
  | NaN => Raise ValueError
  end.

Fixpoint str_repeat (s : string) (n : nat) : string :=
  match n with O => EmptyString | S n' => String.append s (str_repeat s n') end.

Fixpoint list_repeat {A} (l : list A) (n : nat) : list A :=
  match n with O => [] | S n' => l ++ list_repeat l n' end.

Section FloatArith.
Context `{PyFloat}.

(** [x * y] on floats. *)
Definition py_fmul (x y : pyfloat) : pyfloat :=
  match x, y with
  | NaN, _ | _, NaN => NaN
  | Finite a, Finite b => float_mul a b
  | Inf negative, Inf negative' => Inf (xorb negative negative')
  | Inf negative, Finite q | Finite q, Inf negative =>
      match Qcompare q 0 with
      | Eq => NaN
      | Gt => Inf negative
      | Lt => Inf (negb negative)
      end
  end.

(** [x + y] on floats. *)
Definition py_fadd (x y : pyfloat) : pyfloat :=
  match x, y with
  | NaN, _ | _, NaN => NaN
  | Finite a, Finite b => float_add a b
  | Inf negative, Inf negative' =>
      if Bool.eqb negative negative' then Inf negative else NaN
  | Inf negative, Finite _ | Finite _, Inf negative => Inf negative
  end.

End FloatArith.

Section Tickets.
Context `{PyFloat}.

(** [v * k] for an int [k]; the product of a float and 1 is that float. *)
Definition py_mul_int (v : pyval) (k : Z) : res pyval :=
  match v with
  | VInt z => Ok (VInt (z * k))
  | VFloat x =>
      Ok (VFloat (if k =? 1 then x else py_fmul x (Finite (float_of_int k))))
  | VStr s => Ok (VStr (str_repeat s (Z.to_nat k)))
  | VList l => Ok (VList (list_repeat l (Z.to_nat k)))
  | VNone => Raise TypeError
  end.

(** [int(v)] *)
Definition py_int (v : pyval) : res Z :=
  match v with
  | VInt z => Ok z
  | VFloat x => float_int x
  | VStr s =>
      match int_of_str s with Some z => Ok z | None => Raise ValueError end
  | _ => Raise TypeError
  end.

(** ** Lottery scheduling *)

Definition assign_tickets (j : job) (weight_factor : Z) : res Z :=
  v ← getitem j "group_gpu_dur";
  p ← py_mul_int v weight_factor;
  t ← py_int p;
  Ok (Z.max t 1).

(** [job['tickets']], which the first loop of [lottery_sort] sets to an int. *)
Definition get_tickets (j : job) : res Z :=
  v ← getitem j "tickets";
  match v with
  | VInt t => Ok t
  | _ => Raise TypeError
  end.

Record lottery_state := LState {
  job_list : list job;
  cumulative_tickets : list Z;
  total_tickets : Z
}.

(** First loop: tickets per job and the running sum. *)
Fixpoint lottery_assign (jobs : list job) (st : lottery_state)
    : res lottery_state :=
  match jobs with
  | [] => Ok st
  | j :: rest =>
      t ← assign_tickets j 1;
      let j' := <["tickets" := VInt t]> j in
      let total := total_tickets st + t in
      lottery_assign rest
        (LState (job_list st ++ [j']) (cumulative_tickets st ++ [total]) total)
  end.

(** [next(index for index, cumul in enumerate(cumulative) if cumul >= w)] *)
Definition first_index_ge (w : Z) (cumulative : list Z) : res nat :=
  match list_find (fun cumul => w <= cumul) cumulative with
  | Some (index, _) => Ok index
  | None => Raise StopIteration
  end.

(** [for j in range(lo, hi): cumulative[j] -= diff] *)
Definition sub_range (diff : Z) (lo hi : nat) (cumulative : list Z) : list Z :=
  foldl (fun acc j => alter (fun c => c - diff) j acc) cumulative
        (seq lo (hi - lo)).

(** [l[i]] for a list *)
Definition list_getitem {A} (l : list A) (i : nat) : res A :=
  match l !! i with Some x => Ok x | None => Raise IndexError end.

(** The values [random.randint(a, b)] returns: [randint k a b] is the
    result of the call made in iteration [k]. *)
Definition rand_source := nat -> Z -> Z -> Z.

Definition valid_randint (randint : rand_source) : Prop :=
  forall k a b, a <= b -> a <= randint k a b <= b.

(** [random.randint(a, b)] raises ValueError on an empty range. *)
Definition random_randint (randint : rand_source) (k : nat) (a b : Z)
    : res Z :=
  if a <=? b then Ok (randint k a b) else Raise ValueError.

(** The body of the second loop, after the guard, in iteration [i]. *)
Definition lottery_iter (randint : rand_source) (i : nat)
    (st : lottery_state) : res lottery_state :=
  winning_ticket ← random_randint randint i 1 (total_tickets st);
  winning_index ← first_index_ge winning_ticket (cumulative_tickets st);
  ji ← list_getitem (job_list st) i;
  jw ← list_getitem (job_list st) winning_index;
  let jobs' := <[winning_index := ji]> (<[i := jw]> (job_list st)) in
  placed ← list_getitem jobs' i;
  diff ← get_tickets placed;
  let cumulative' :=
    if decide (i = winning_index) then cumulative_tickets st
    else sub_range diff i (winning_index + 1) (cumulative_tickets st) in
  Ok (LState jobs' cumulative' (total_tickets st - diff)).

(** [for i in range(n)] from iteration [i] on, with the [break]. *)
Fixpoint lottery_loop (randint : rand_source) (n i : nat)
    (st : lottery_state) : res lottery_state :=
  match n with
  | O => Ok st
  | S n' =>
      if total_tickets st <=? 0 then Ok st
      else
        st' ← lottery_iter randint i st;
        lottery_loop randint n' (S i) st'
  end.

Definition lottery_sort (randint : rand_source) (jobs : list job)
    : res (list job) :=
  st0 ← lottery_assign jobs (LState [] [] 0);
  st ← lottery_loop randint (length (job_list st0)) 0 st0;
  Ok (job_list st).

End Tickets.

(** ** Fair share *)

(** Keys of a Python dict: [None], a string, or a number; numbers that are
    equal ([1 == 1.0]) are the same key, and the two infinities are keys
    (the boolean tells the negative one).  A list is unhashable.  A [nan]
    is a key that a lookup finds again only through the same object, which
    a value cannot tell: the model does not follow Python there. *)
Abbreviation pykey := (option (string + (Qc + bool)))%type.

Definition py_hash (v : pyval) : res pykey :=
  match v with
  | VNone => Ok None
  | VStr s => Ok (Some (inl s))
  | VNum n =>
      match num_float n with
      | Finite q => Ok (Some (inr (inl (Q2Qc q))))
      | Inf negative => Ok (Some (inr (inr negative)))
      | NaN => Raise NotModelled
      end
  | VList _ => Raise TypeError
  end.

(** Stable sort of keyed items, ascending, comparing keys with [<] only.
    [list.sort] is stable, and every stable sort returns the same list, so
    an insertion sort stands for it. *)
Fixpoint insert_sorted {A} (x : pynum * A) (l : list (pynum * A))
    : list (pynum * A) :=
  match l with
  | [] => [x]
  | y :: l' =>
      if num_lt (fst y) (fst x) then y :: insert_sorted x l' else x :: y :: l'
  end.

Fixpoint stable_sort {A} (l : list (pynum * A)) : list (pynum * A) :=
  match l with
  | [] => []
  | x :: l' => insert_sorted x (stable_sort l')
  end.

Section FairShare.
Context `{PyFloat}.

(** [acc + v] where [acc] is a number. *)
Definition py_add (acc : pynum) (v : pyval) : res pynum :=
  match acc, v with
  | NInt a, VInt b => Ok (NInt (a + b))
  | NInt a, VFloat b => Ok (NFloat (py_fadd (Finite (float_of_int a)) b))
  | NFloat a, VInt b => Ok (NFloat (py_fadd a (Finite (float_of_int b))))
  | NFloat a, VFloat b => Ok (NFloat (py_fadd a b))
  | _, _ => Raise TypeError
  end.

(** First loop: every consumer of the list gets usage 0. *)
Fixpoint fair_share_init (field : string) (jobs : list job)
    (gpu_time_used : gmap pykey pynum) : res (gmap pykey pynum) :=
  match jobs with
  | [] => Ok gpu_time_used
  | j :: rest =>
      g ← getitem j field;
      k ← py_hash g;
      fair_share_init field rest
        (match gpu_time_used !! k with
         | Some _ => gpu_time_used
         | None => <[k := NInt 0]> gpu_time_used
         end)
  end.

(** The sort key [gpu_time_used[job[field]]]. *)
Definition fair_share_key (field : string) (gpu_time_used : gmap pykey pynum)
    (j : job) : res pynum :=
  g ← getitem j field;
  k ← py_hash g;
  match gpu_time_used !! k with
  | Some n => Ok n
  | None => Raise KeyError
  end.

(** Last loop: [gpu_time_used[consumer] += job['group_gpu_dur']]. *)
Fixpoint fair_share_update (field : string) (jobs : list job)
    (gpu_time_used : gmap pykey pynum) : res (gmap pykey pynum) :=
  match jobs with
  | [] => Ok gpu_time_used
  | j :: rest =>
      g ← getitem j field;
      k ← py_hash g;
      match gpu_time_used !! k with
      | None => Raise KeyError
      | Some used =>
          d ← getitem j "group_gpu_dur";
          used' ← py_add used d;
          fair_share_update field rest (<[k := used']> gpu_time_used)
      end
  end.

(** The body shared by [fair_share_group] and [fair_share_user]: the job
    list as sorted, and the local dict [gpu_time_used] as it stands when
    the function returns. *)
Definition fair_share_run (field : string) (jobs : list job)
    : res (list job * gmap pykey pynum) :=
  gpu_time_used ← fair_share_init field jobs ∅;
  keys ← mapM (fair_share_key field gpu_time_used) jobs;
  let sorted := snd <$> stable_sort (zip keys jobs) in
  gpu_time_used' ← fair_share_update field sorted gpu_time_used;
  Ok (sorted, gpu_time_used').

(** [gpu_time_used] is a local of the call: only the list survives it. *)
Definition fair_share_group (jobs : list job) : res (list job) :=
  fst <$> fair_share_run "group" jobs.

Definition fair_share_user (jobs : list job) : res (list job) :=
  fst <$> fair_share_run "user" jobs.

End FairShare.

(** ** Round-robin ids: [add_user_round_robin_id] *)

(** The loop over the job list; [user_rrid_dict] counts the jobs seen so
    far per user.  [job['user']] raises KeyError when the key is missing,
    and looking a list up in the dict raises TypeError. *)
Fixpoint rrid_loop (jobs : list job) (user_rrid_dict : gmap pykey Z)
    : res (list job) :=
  match jobs with
  | [] => Ok []
  | j :: rest =>
      user ← getitem j "user";
      k ← py_hash user;
      let rrid :=
        match user_rrid_dict !! k with None => 0 | Some r => r end in
      let user_rrid_dict' :=
        match user_rrid_dict !! k with
        | None => <[k := 1]> user_rrid_dict
        | Some r => <[k := r + 1]> user_rrid_dict
        end in
      rest' ← rrid_loop rest user_rrid_dict';
      Ok (<["user_rrid" := VInt rrid]> j :: rest')
  end.

Definition add_user_round_robin_id (jobs : list job) : res (list job) :=
  rrid_loop jobs ∅.

(** ** Job record builder: [_add_job] *)

Definition is_digit (c : ascii) : bool :=
  let n := nat_of_ascii c in (48 <=? n)%nat && (n <=? 57)%nat.

Fixpoint all_digits (s : string) : bool :=
  match s with
  | EmptyString => true
  | String c s' => is_digit c && all_digits s'
  end.

(** [s.isdigit()], for a string of ASCII characters. *)
Definition isdigit (s : string) : bool :=
  match s with
  | EmptyString => false
  | _ => all_digits s
  end.

(** [round(x)] for a finite float: the nearest int, a tie going to the
    even one. *)
Definition py_round (q : Q) : Z :=
  let f := Qfloor q in
  match Qcompare (q - inject_Z f) (1 # 2) with
  | Lt => f
  | Gt => f + 1
  | Eq => if Z.even f then f else f + 1
  end.

(** [round(x)] for a float: an infinity raises OverflowError, [nan] raises
    ValueError. *)
Definition float_round (x : pyfloat) : res Z :=
  match x with
  | Finite q => Ok (py_round q)
  | Inf _ => Raise OverflowError
  | NaN => Raise ValueError
  end.

Definition dur_keys : list string :=
  ["wait_time"; "user_dur"; "user_gpu_dur"; "group_dur"; "group_gpu_dur"].

Definition percent_keys : list string := ["num_cpu"; "num_gpu"].

Definition drop_cols : list string :=
  ["fuxi_job_name"; "fuxi_task_name"; "inst_id"; "running_cluster";
   "model_name"; "iterations"; "interval"; "vc"; "jobid"; "status"].

(** An int field read back from the dict. *)
Definition get_int (d : job) (key : string) : res Z :=
  v ← getitem d key;
  match v with
  | VInt z => Ok z
  | _ => Raise TypeError
  end.

Section AddJob.
Context `{PyFloat}.

(** [float(v)] *)
Definition py_float (v : pyval) : res pyfloat :=
  match v with
  | VStr s =>
      match float_of_str s with Some x => Ok x | None => Raise ValueError end
  | VInt z => Ok (Finite (float_of_int z))
  | VFloat x => Ok x
  | _ => Raise TypeError
  end.

(** The body of the first loop for one item: the value the key holds
    afterwards.  A digit string (except the user's) becomes an int, a
    duration-like column becomes a float when it parses, the rest stays. *)
Definition convert_entry (key : string) (value : pyval) : res pyval :=
  match value with
  | VNone => Ok VNone
  | VStr s =>
      if isdigit s && bool_decide (key <> "user") then
        match float_of_str s with
        | Some x => z ← float_round x; Ok (VInt z)
        | None => Raise ValueError
        end
      else if bool_decide (key ∈ dur_keys) then
        match float_of_str s with
        | Some x => Ok (VFloat x)
        | None => Ok (VStr s)
        end
      else Ok (VStr s)
  | _ => Raise AttributeError
  end.

Definition entry_error (kv : string * pyval) : option exn :=
  match convert_entry (fst kv) (snd kv) with
  | Raise e => Some e
  | Ok _ => None
  end.

Definition entry_value (key : string) (value : pyval) : option pyval :=
  match convert_entry key value with
  | Ok v => Some v
  | Raise _ => None
  end.

(** The first loop over [job_dict.items()]: each item is converted on its
    own, and the loop raises when one of them does (when several would,
    Python meets the first in the row's column order; the model reports
    one of them). *)
Definition convert_row (job_dict : job) : res job :=
  match head (omap entry_error (map_to_list job_dict)) with
  | Some e => Raise e
  | None => Ok (map_imap entry_value job_dict)
  end.

(** The body of the loop over the four keys with a default. *)
Definition default_field (key : string) (job_dict : job) : res job :=
  let missing :=
    match job_dict !! key with
    | None => true
    | Some (VStr EmptyString) => true
    | Some _ => false
    end in
  if missing then
    Ok (<[key := VInt (if bool_decide (key ∈ percent_keys) then 0 else 1)]>
          job_dict)
  else
    v ← getitem job_dict key;
    x ← py_float v;
    if bool_decide (key ∈ percent_keys) then
      z ← float_round (py_fmul (Finite (float_of_int 100)) x);
      Ok (<[key := VInt z]> job_dict)
    else
      z ← float_round x;
      Ok (<[key := VInt z]> job_dict).

(** The duration estimates copied from the user's profile, when there is one. *)
Definition add_estimates (describe_dict : option (gmap string job))
    (job_dict : job) : res job :=
  match describe_dict with
  | None => Ok job_dict
  | Some dd =>
      u ← getitem job_dict "user";
      k ← py_hash u;
      match (match k with Some (inl name) => dd !! name | _ => None end) with
      | None => Ok job_dict
      | Some jd_user =>
          avg ← getitem jd_user "mean" ≫= py_float;
          std ← getitem jd_user "std" ≫= py_float;
          med ← getitem jd_user "50%" ≫= py_float;
          trim ← getitem jd_user "trim_mean" ≫= py_float;
          Ok (<["dur_trim_mean" := VFloat trim]>
                (<["dur_med" := VFloat med]>
                   (<["dur_std" := VFloat std]>
                      (<["dur_avg" := VFloat avg]> job_dict))))
      end
  end.

(** Lines 116-124: the entries used in scheduling. *)
Definition add_scheduling_entries (job_dict : job) : res job :=
  dv ← getitem job_dict "duration";
  x ← py_float dv;
  t ← float_int x;
  let d1 := <["duration" := VInt t]> job_dict in
  let d2 := if t <=? 0 then <["duration" := VInt 1]> d1 else d1 in
  g ← get_int d2 "num_gpu";
  c ← get_int d2 "num_cpu";
  dur ← get_int d2 "duration";
  let d3 := <["size" := VInt ((g + c) * dur)]> d2 in
  let d4 := <["on_time" := VInt 0]> d3 in
  let d5 := <["wasted" := VInt 0]> d4 in
  let d6 := <["jct" := VInt (-1)]> d5 in
  let d7 := <["resource" := VList [VInt g; VInt c]]> d6 in
  Ok (<["node" := VNone]> d7).

Definition _add_job (job_list : list job) (job_dict : job)
    (describe_dict : option (gmap string job)) : res (list job) :=
  d0 ← convert_row job_dict;
  d1 ← default_field "num_cpu" d0;
  d2 ← default_field "num_gpu" d1;
  d3 ← default_field "submit_time" d2;
  d4 ← default_field "num_inst" d3;
  d5 ← add_scheduling_entries d4;
  d6 ← add_estimates describe_dict d5;
  let d7 := foldl (fun d col => delete col d) d6 drop_cols in
  Ok (job_list ++ [d7]).

End AddJob.

(** ** Replay buffer ([rl_helpers.py]) *)

Record Experience := mkExperience {
  state : list Q;
  action : nat;
  reward : Q;
  next_state : list Q;
  done : bool
}.

(** [collections.deque(maxlen=n)]: oldest item first. *)
Record deque (A : Type) := Deque {
  items : list A;
  maxlen : N
}.
Arguments Deque {A} items maxlen.
Arguments items {A} d.
Arguments maxlen {A} d.

(** [d.append(x)]: the item goes to the right end, and the leftmost item
    is dropped when the deque has grown past [maxlen]. *)
Definition deque_append {A} (d : deque A) (x : A) : deque A :=
  let l := items d ++ [x] in
  Deque (if decide (maxlen d < N.of_nat (length l))%N then tail l else l)
        (maxlen d).

(** The batch [random.sample(population, k)] returns. *)
Definition sampler := list Experience -> nat -> list Experience.

(** [np.vstack(rows)] of a list of vectors: ValueError when there is no
    row to stack, and when two rows differ in length. *)
Definition np_vstack (rows : list (list Q)) : res (list (list Q)) :=
  match rows with
  | [] => Raise ValueError
  | row :: rest =>
      if forallb (fun r => (length r =? length row)%nat) rest
      then Ok rows
      else Raise ValueError
  end.

Module ReplayBuffer.

Record t := Make {
  action_size : nat;
  memory : deque Experience;
  batch_size : nat
}.

Definition init (action_size : nat) (buffer_size : N) (batch_size : nat)
    (seed : Z) : t :=
  Make action_size (Deque [] buffer_size) batch_size.

Definition add (self : t) (state : list Q) (action : nat) (reward : Q)
    (next_state : list Q) (done : bool) : t :=
  let e := mkExperience state action reward next_state done in
  Make (action_size self) (deque_append (memory self) e) (batch_size self).

Definition len (self : t) : nat := length (items (memory self)).

(** [random.sample] raises ValueError when the sample is larger than the
    population.  The states and the next states of the batch are stacked
    with [np.vstack]; the actions, rewards and flags are scalars, which
    stack whenever the states did.  The five stacked tensors [sample]
    returns are the columns of the batch. *)
Definition sample (random_sample : sampler) (self : t)
    : res (list Experience) :=
  if decide (batch_size self <= len self)%nat then
    let experiences := random_sample (items (memory self)) (batch_size self) in
    _ ← np_vstack (state <$> experiences);
    _ ← np_vstack (next_state <$> experiences);
    Ok experiences
  else Raise ValueError.

End ReplayBuffer.

(** ** DQN agent *)

(** Hyperparameters *)
Definition BUFFER_SIZE : N := 100000.
Definition LR : Q := 5 # 10000.

(** What torch computes is left open: the network parameters, the forward
    pass giving the action values of a state of the network's input size,
    the optimizer, and the gradient step with the soft update of the
    target network on a batch the networks accept.  What torch refuses is
    written out where the agent calls it. *)
Class Torch := {
  net : Type;
  optim : Type;
  QNetwork : nat -> nat -> Z -> net;
  forward : net -> list Q -> list Q;
  Adam : net -> Q -> optim;
  gradient_step : net -> net -> optim -> list Experience -> Q -> Q
                  -> net * net * optim
}.

(** [np.argmax]: the first index of the largest value. *)
Fixpoint argmax_from (best_index : nat) (best : Q) (index : nat)
    (values : list Q) : nat :=
  match values with
  | [] => best_index
  | x :: rest =>
      if negb (Qle_bool x best)
      then argmax_from index x (S index) rest
      else argmax_from best_index best (S index) rest
  end.

Definition np_argmax (values : list Q) : res nat :=
  match values with
  | [] => Raise ValueError
  | x :: rest => Ok (argmax_from 0%nat x 1%nat rest)
  end.

(** [np.arange(n)] *)
Definition np_arange (n : nat) : list nat := seq 0 n.

(** [random.choice(seq)] is [seq[randbelow(len(seq))]], and IndexError on
    an empty [seq]; [randbelow n] stands for the index the random source
    draws, uniformly below [n]. *)
Definition random_choice {A} (randbelow : nat -> nat) (l : list A) : res A :=
  match l with
  | [] => Raise IndexError
  | _ => list_getitem l (randbelow (length l))
  end.

Definition valid_randbelow (randbelow : nat -> nat) : Prop :=
  forall n, (0 < n)%nat -> (randbelow n < n)%nat.

(** torch raises RuntimeError when a tensor does not have the shape an
    operation needs, or an index lies outside a tensor. *)
Definition torch_check (ok : bool) : res unit :=
  if ok then Ok tt else Raise RuntimeError.


Module DQNAgent.
Section Agent.
Context `{Torch}.

Record t := Make {
  state_size : nat;
  action_size : nat;
  qnetwork_local : net;
  qnetwork_target : net;
  optimizer : optim;
  memory : ReplayBuffer.t;
  t_step : Z
}.

Definition init (state_size action_size : nat) (seed : Z) : t :=
  let qnetwork_local := QNetwork state_size action_size seed in
  let qnetwork_target := QNetwork state_size action_size seed in
  Make state_size action_size qnetwork_local qnetwork_target
       (Adam qnetwork_local LR)
       (ReplayBuffer.init action_size 10000%N 64 seed)
       0.



(** [u] is the value of [random.random()], in [0, 1).  The forward pass
    needs a state of [state_size] entries. *)
Definition act (self : t) (state : list Q) (eps : Q) (u : Q)
    (randbelow : nat -> nat) : res nat :=
  _ ← torch_check (length state =? state_size self)%nat;
  let action_values := forward (qnetwork_local self) state in
  if negb (Qle_bool u eps) then np_argmax action_values
  else random_choice randbelow (np_arange (action_size self)).

End Agent.
End DQNAgent.

(** ** Concrete inputs *)

(** Exact arithmetic on decimal digit strings, to evaluate examples. *)
Fixpoint digits_val (acc : Z) (s : string) : option Z :=
  match s with
  | EmptyString => Some acc
  | String c s' =>
      if is_digit c
      then digits_val (10 * acc + (Z.of_nat (nat_of_ascii c) - 48)) s'
      else None
  end.

Definition nat_of_str (s : string) : option Z :=
  if isdigit s then digits_val 0 s else None.

Definition exact_float : PyFloat := {|
  float_of_str s :=
    if String.eqb s "inf" then Some (Inf false)
    else if String.eqb s "nan" then Some NaN
    else (fun z => Finite (inject_Z z)) <$> nat_of_str s;
  int_of_str := nat_of_str;
  float_of_int := inject_Z;
  float_mul a b := Finite (a * b);
  float_add a b := Finite (a + b)
|}.

Definition job_of (id group : string) (dur : Z) : job :=
  {[ "job_id" := VStr id; "user" := VStr id; "group" := VStr group;
     "group_gpu_dur" := VInt dur ]}.

Definition big_job : job :=
  {[ "job_id" := VStr "j1"; "num_gpu" := VInt 150; "num_cpu" := VInt 600;
     "duration" := VInt 5; "size" := VInt 3750 ]}.

(** A draw source that always returns the lowest ticket. *)
Definition lowest_ticket : rand_source := fun _ a _ => a.

(** A draw source whose first draw is the highest ticket and whose later
    draws are the lowest. *)
Definition high_then_low : rand_source :=
  fun k a b => if (k =? 0)%nat then b else a.

Definition ticketed (id group : string) (dur : Z) : job :=
  <["tickets" := VInt dur]> (job_of id group dur).

Definition key_of_str (s : string) : pykey := Some (inl s).

(** A raw trace row: every value is a string. *)
Definition raw_row : job :=
  {[ "job_id" := VStr "j7"; "user" := VStr "u1"; "duration" := VStr "12";
     "num_gpu" := VStr "1"; "num_cpu" := VStr "6"; "status" := VStr "ok" ]}.

Definition built_row : job :=
  {[ "job_id" := VStr "j7"; "user" := VStr "u1"; "duration" := VInt 12;
     "num_gpu" := VInt 100; "num_cpu" := VInt 600; "submit_time" := VInt 1;
     "num_inst" := VInt 1; "size" := VInt 8400; "on_time" := VInt 0;
     "wasted" := VInt 0; "jct" := VInt (-1);
     "resource" := VList [VInt 100; VInt 600]; "node" := VNone ]}.

(** A sparse row: digits for the id and the user, an empty [num_gpu], no
    [num_cpu], [submit_time] or [num_inst]. *)
Definition digit_row : job :=
  {[ "job_id" := VStr "7"; "user" := VStr "42"; "duration" := VStr "12";
     "num_gpu" := VStr EmptyString; "vc" := VStr "v1" ]}.

Definition built_digit_row : job :=
  {[ "job_id" := VInt 7; "user" := VStr "42"; "duration" := VInt 12;
     "num_gpu" := VInt 0; "num_cpu" := VInt 0; "submit_time" := VInt 1;
     "num_inst" := VInt 1; "size" := VInt 0; "on_time" := VInt 0;
     "wasted" := VInt 0; "jct" := VInt (-1);
     "resource" := VList [VInt 0; VInt 0]; "node" := VNone ]}.

(** The profile of user u1, as [_add_describe] leaves it: the statistics
    are floats, [trim_mean] is still the file's string. *)
Definition profile_u1 : job :=
  {[ "user" := VStr "u1"; "count" := VInt 3; "mean" := VFloat 30%Q;
     "std" := VFloat 4%Q; "50%" := VFloat 28%Q; "trim_mean" := VStr "29" ]}.

Definition describe_u1 : gmap string job := {[ "u1" := profile_u1 ]}.

Definition described_row : job :=
  <["dur_trim_mean" := VFloat 29%Q]>
    (<["dur_med" := VFloat 28%Q]>
       (<["dur_std" := VFloat 4%Q]> (<["dur_avg" := VFloat 30%Q]> built_row))).

(** A row with the GPU time its group has used. *)
Definition gpu_row : job := <["group_gpu_dur" := VStr "30"]> raw_row.

Definition built_gpu_row : job := <["group_gpu_dur" := VInt 30]> built_row.

(** Jobs whose [group_gpu_dur] is the float [inf], and [nan]. *)
Definition inf_job : job :=
  {[ "job_id" := VStr "a"; "group_gpu_dur" := VFloat (Inf false) ]}.

Definition nan_job : job :=
  {[ "job_id" := VStr "b"; "group_gpu_dur" := VFloat NaN ]}.

(** A row whose [group_gpu_dur] is the text [inf], and the record
    [_add_job] builds from it. *)
Definition inf_row : job := <["group_gpu_dur" := VStr "inf"]> raw_row.

Definition built_inf_row : job :=
  <["group_gpu_dur" := VFloat (Inf false)]> built_row.

(** A row without a duration. *)
Definition no_duration_row : job :=
  {[ "job_id" := VStr "j7"; "user" := VStr "u1"; "num_gpu" := VStr "1" ]}.

Definition exp_n (n : nat) : Experience :=
  mkExperience [inject_Z (Z.of_nat n)] n 0 [] false.

(** A state vector of 10 entries, and an experience made of it. *)
Definition state10 : list Q := replicate 10 0%Q.


(** Networks with two actions, whose action values are [1; 5] for every
    state and whose parameters count the updates made. *)
Definition two_actions : Torch := {|
  net := nat;
  optim := unit;
  QNetwork _ _ _ := 0%nat;
  forward _ _ := [1%Q; 5%Q];
  Adam _ _ := tt;
  gradient_step local target opt _ _ _ := (S local, S target, opt)
|}.

(** ** Vocabulary of the statements *)

(** [job[key] > limit] is false, when the job has the key. *)
Definition within (key : string) (limit : Z) (j : job) : Prop :=
  forall v, j !! key = Some v ->
    exists n, v = VNum n /\ num_gt n (NInt limit) = false.

(** [key in job and job[key] > limit] *)
Definition exceeds (key : string) (limit : Z) (j : job) : bool :=
  match j !! key with
  | Some (VNum n) => num_gt n (NInt limit)
  | _ => false
  end.

Definition clamps (gpu_limit cpu_limit : Z) (j : job) : nat :=
  (Nat.b2n (exceeds "num_gpu" gpu_limit j) +
   Nat.b2n (exceeds "num_cpu" cpu_limit j))%nat.

(** Jobs that carry the fields the diagnostic prints, with int resources:
    what [_add_job] builds from a row that has a [job_id]. *)
Definition job_record (j : job) : Prop :=
  is_Some (j !! "job_id") /\ is_Some (j !! "duration") /\
  (exists g, j !! "num_gpu" = Some (VInt g)) /\
  (exists c, j !! "num_cpu" = Some (VInt c)).

(** The job as the loop body leaves it. *)
Definition clamp_field (key : string) (limit : Z) (j : job) : job :=
  if exceeds key limit j then <[key := VInt limit]> j else j.

Definition clamp_job (gpu_limit cpu_limit : Z) (j : job) : job :=
  clamp_field "num_cpu" cpu_limit (clamp_field "num_gpu" gpu_limit j).

(** A job whose [group_gpu_dur] is a number (an int or a float). *)
Definition numeric_dur (j : job) : Prop :=
  exists n, j !! "group_gpu_dur" = Some (VNum n).

(** A number other than [inf], [-inf] and [nan]. *)
Definition finite (n : pynum) : Prop :=
  match n with
  | NInt _ | NFloat (Finite _) => True
  | NFloat _ => False
  end.

(** A job whose [group_gpu_dur] is an int or a finite float. *)
Definition finite_dur (j : job) : Prop :=
  exists n, j !! "group_gpu_dur" = Some (VNum n) /\ finite n.

(** A job whose [tickets] field holds an int that is at least 1. *)
Definition has_tickets (j : job) : Prop :=
  exists t, j !! "tickets" = Some (VInt t) /\ 1 <= t.

(** The loop invariant: one cumulative entry per job, every job ticketed,
    and the last cumulative entry not below the tickets left. *)
Definition lottery_inv (st : lottery_state) : Prop :=
  length (cumulative_tickets st) = length (job_list st) /\
  Forall has_tickets (job_list st) /\
  forall c, last (cumulative_tickets st) = Some c -> total_tickets st <= c.

(** The jobs with the tickets the first loop writes into them. *)
Definition with_tickets (jobs : list job) (ts : list Z) : list job :=
  zip_with (fun j t => <["tickets" := VInt t]> j) jobs ts.

Definition all_zero (gpu_time_used : gmap pykey pynum) : Prop :=
  map_Forall (fun _ n => n = NInt 0) gpu_time_used.

(** [float] of an int that [round] produced from the float of a digit
    string gives that float back: such a float is a whole number. *)
Definition float_int_roundtrip `{PyFloat} : Prop :=
  forall s (q : Q), isdigit s = true -> float_of_str s = Some (Finite q) ->
                    float_of_int (py_round q) = q.

Definition add_experience (rb : ReplayBuffer.t) (e : Experience)
    : ReplayBuffer.t :=
  ReplayBuffer.add rb (state e) (action e) (reward e) (next_state e) (done e).

(** A sequence of [add] calls, oldest first. *)
Definition add_all (rb : ReplayBuffer.t) (es : list Experience)
    : ReplayBuffer.t :=
  foldl add_experience rb es.


(** What the constructor fixes about the buffer and no method changes. *)
Definition agent_buffer `{Torch} (self : DQNAgent.t) : Prop :=
  maxlen (ReplayBuffer.memory (DQNAgent.memory self)) = 10000%N /\
  ReplayBuffer.batch_size (DQNAgent.memory self) = 64%nat.

(** [random.sample] draws without replacement: the batch has [k] items,
    taken from different places of the population. *)
Definition valid_sampler (random_sample : sampler) : Prop :=
  forall population k, (k <= length population)%nat ->
    length (random_sample population k) = k /\
    random_sample population k ⊆+ population.




(** The dict key of a job's user, when the job has one that can be hashed. *)
Definition user_key (j : job) : option pykey :=
  match j !! "user" with
  | Some v => match py_hash v with Ok k => Some k | Raise _ => None end
  | None => None
  end.

(** How many of [jobs] belong to the user with key [k]. *)
Definition count_user (k : pykey) (jobs : list job) : nat :=
  length (filter (fun j => user_key j = Some k) jobs).

(** The dict holds, for every user, the number of jobs of [seen]. *)
Definition counts_seen (seen : list job) (d : gmap pykey Z) : Prop :=
  forall k, d !! k = if decide (count_user k seen = 0%nat) then None
                     else Some (Z.of_nat (count_user k seen)).

(** The sum of a list of ticket counts. *)
Definition sum_tickets (ts : list Z) : Z := foldr Z.add 0 ts.

(** The running sums of [ts] on top of [base]. *)
Fixpoint running_sums (base : Z) (ts : list Z) : list Z :=
  match ts with
  | [] => []
  | t :: rest => (base + t) :: running_sums (base + t) rest
  end.

(** The dict key of a job's consumer (its [group] or its [user]), when
    the job has one that can be hashed. *)
Definition consumer_key (field : string) (j : job) : option pykey :=
  match j !! field with
  | Some v => match py_hash v with Ok k => Some k | Raise _ => None end
  | None => None
  end.

(** A job whose [group_gpu_dur] is an int. *)
Definition int_dur (j : job) : Prop :=
  exists z, j !! "group_gpu_dur" = Some (VInt z).

Definition dur_of (j : job) : Z :=
  match j !! "group_gpu_dur" with
  | Some (VInt z) => z
  | _ => 0
  end.

(** The time units of the jobs of [jobs] that belong to consumer [k]. *)
Definition usage_of (field : string) (k : pykey) (jobs : list job) : Z :=
  foldr (fun j acc =>
           if decide (consumer_key field j = Some k) then dur_of j + acc
           else acc) 0 jobs.

Definition val_int (n : pynum) : Z :=
  match n with NInt z => z | NFloat _ => 0 end.

Definition all_ints (gpu_time_used : gmap pykey pynum) : Prop :=
  map_Forall (fun _ n => exists z, n = NInt z) gpu_time_used.

(** The key is absent from the row, or holds the empty string. *)
Definition missing (key : string) (d : job) : Prop :=
  d !! key = None \/ d !! key = Some (VStr EmptyString).

(** The keys [_add_job] writes after the first loop. *)
Definition written_keys : list string :=
  ["num_cpu"; "num_gpu"; "submit_time"; "num_inst"; "duration"; "size";
   "on_time"; "wasted"; "jct"; "resource"; "node";
   "dur_avg"; "dur_std"; "dur_med"; "dur_trim_mean"].

(** The duration estimates [_add_job] copies from a user's profile. *)
Definition est_keys : list string :=
  ["dur_avg"; "dur_std"; "dur_med"; "dur_trim_mean"].

(** [describe_dict.get(user)], the keys of [describe_dict] being names. *)
Definition profile_of (describe_dict : gmap string job) (user : pyval)
    : option job :=
  match user with
  | VStr name => describe_dict !! name
  | _ => None
  end.




(** * Properties *)

(** ** Results and comparisons *)

Lemma bind_Ok {A B} (m : res A) (f : A -> res B) (b : B) :
  m ≫= f = Ok b -> exists a, m = Ok a /\ f a = Ok b.
Proof. destruct m as [a|e]; simpl; [eauto | discriminate]. Qed.

Lemma bind_Ok_l {A B} (a : A) (f : A -> res B) : Ok a ≫= f = f a.
Proof. reflexivity. Qed.

Lemma getitem_Ok (d : job) key v : getitem d key = Ok v <-> d !! key = Some v.
Proof.
  unfold getitem. destruct (d !! key); split; intros E;
    try discriminate; congruence.
Qed.

Ltac inv_res :=
  repeat match goal with
  | E : Ok _ = Ok _ |- _ => injection E as E; simplify_eq
  | E : Raise _ = Ok _ |- _ => discriminate E
  | E : mret _ = Ok _ |- _ => unfold mret, res_ret in E
  | E : _ ≫= _ = Ok _ |- _ =>
      let a := fresh "a" in let Ea := fresh "Ea" in
      apply bind_Ok in E; destruct E as (a & Ea & E)
  | E : getitem _ _ = Ok _ |- _ => apply getitem_Ok in E
  end.

Lemma Qle_bool_inject (a b : Z) : Qle_bool (inject_Z a) (inject_Z b) = (a <=? b).
Proof.
  apply eq_true_iff_eq. rewrite Qle_bool_iff, <- Zle_Qle, Z.leb_le. reflexivity.
Qed.

Lemma num_gt_int (a b : Z) : num_gt (NInt a) (NInt b) = (b <? a).
Proof.
  unfold num_gt, num_lt. simpl. rewrite Qle_bool_inject.
  rewrite Z.ltb_antisym. reflexivity.
Qed.

(** ** Resource guard *)

(** What one [if] block does when it returns. *)
Lemma prune_field_Ok key what limit j log j' log' :
  prune_field key what limit (j, log) = Ok (j', log') ->
  (exceeds key limit j = false /\ within key limit j /\ j' = j /\ log' = log)
  \/
  (exceeds key limit j = true /\ j' = <[key := VInt limit]> j /\
   exists r was, log' = log ++ [Diag r what was limit]).
Proof.
  unfold prune_field, exceeds, within.
  destruct (j !! key) as [v|] eqn:Ev.
  - destruct v as [|s|n|l]; simpl; try discriminate.
    destruct (num_gt n (NInt limit)) eqn:Egt.
    + intros E. inv_res. right. split; [reflexivity|]. split; [reflexivity|].
      eexists _, _. reflexivity.
    + intros E. inv_res. left. repeat split; try reflexivity.
      intros v Hv. injection Hv as <-. exists n. split; [reflexivity|].
      exact Egt.
  - intros E. inv_res. left. repeat split; try reflexivity.
    intros v Hv. discriminate.
Qed.

Lemma exceeds_insert_ne key key' limit v j :
  key <> key' -> exceeds key limit (<[key' := v]> j) = exceeds key limit j.
Proof. intros Hne. unfold exceeds. by rewrite lookup_insert_ne. Qed.

Lemma within_insert key limit j : within key limit (<[key := VInt limit]> j).
Proof.
  intros v. rewrite lookup_insert_eq. intros [= <-].
  exists (NInt limit). split; [done|]. rewrite num_gt_int. apply Z.ltb_irrefl.
Qed.

Lemma within_insert_ne key key' limit v j :
  key <> key' -> within key limit j -> within key limit (<[key' := v]> j).
Proof. intros Hne Hw w. rewrite lookup_insert_ne by done. apply Hw. Qed.

Lemma prune_job_Ok gpu_limit cpu_limit j log j' log' :
  prune_job gpu_limit cpu_limit (j, log) = Ok (j', log') ->
  j' = clamp_job gpu_limit cpu_limit j /\
  within "num_gpu" gpu_limit j' /\ within "num_cpu" cpu_limit j' /\
  length log' = (length log + clamps gpu_limit cpu_limit j)%nat.
Proof.
  unfold prune_job. intros E. inv_res. destruct a as [j1 log1].
  apply prune_field_Ok in Ea. apply prune_field_Ok in E.
  assert (Hc : exceeds "num_cpu" cpu_limit j1 = exceeds "num_cpu" cpu_limit j).
  { destruct Ea as [(_ & _ & -> & _)|(_ & -> & _)]; [done|].
    by apply exceeds_insert_ne. }
  unfold clamp_job, clamp_field, clamps.
  destruct Ea as [(Hg & Wg & -> & ->)|(Hg & -> & r & was & ->)];
    destruct E as [(Hc' & Wc & -> & ->)|(Hc' & -> & r' & was' & ->)];
    rewrite Hg; try rewrite Hc in Hc'; simpl; rewrite ?exceeds_insert_ne by done;
    rewrite Hc'; simpl; rewrite ?length_app; simpl;
    (split; [reflexivity|]); (split; [|split; [|lia]]);
    auto using within_insert, within_insert_ne.
Qed.

Lemma prune_loop_Ok gpu_limit cpu_limit jobs : forall log jobs' log',
  prune_loop gpu_limit cpu_limit jobs log = Ok (jobs', log') ->
  jobs' = clamp_job gpu_limit cpu_limit <$> jobs /\
  Forall (fun j' => within "num_gpu" gpu_limit j' /\
                    within "num_cpu" cpu_limit j') jobs' /\
  length log' = (length log + sum_list (clamps gpu_limit cpu_limit <$> jobs))%nat.
Proof.
  induction jobs as [|j rest IH]; intros log jobs' log' E; simpl in E.
  - inv_res. simpl. split; [done|]. split; [constructor | lia].
  - inv_res. destruct a as [j1 log1]. inv_res. destruct a as [rest1 log2].
    inv_res. apply prune_job_Ok in Ea as (-> & Wg & Wc & Hl).
    apply IH in Ea0 as (-> & Hall & Hl').
    split; [done|]. split; [by constructor |].
    rewrite fmap_cons. simpl sum_list. lia.
Qed.

(** A job record never makes the loop body raise. *)
Lemma prune_field_record key what limit j log :
  job_record j -> (key = "num_gpu" \/ key = "num_cpu") ->
  exists log', prune_field key what limit (j, log)
               = Ok (clamp_field key limit j, log').
Proof.
  intros (Hid & Hd & (g & Hg) & (c & Hc)) Hkey.
  assert (exists z, j !! key = Some (VInt z)) as (z & Hz).
  { destruct Hkey as [-> | ->]; eauto. }
  unfold prune_field, clamp_field, exceeds. rewrite Hz. simpl.
  destruct (num_gt (NInt z) (NInt limit)); [|eauto].
  destruct Hid as [vid Hid], Hd as [vd Hd].
  unfold _repr_job_concise, getitem.
  destruct Hkey as [-> | ->];
    rewrite ?lookup_insert_eq, ?lookup_insert_ne by done;
    rewrite ?Hid, ?Hd, ?Hg, ?Hc; simpl; eauto.
Qed.

Lemma clamp_field_record key limit j :
  job_record j -> job_record (clamp_field key limit j).
Proof.
  unfold clamp_field. destruct (exceeds key limit j); [|done].
  intros (Hid & Hd & (g & Hg) & (c & Hc)). unfold job_record.
  rewrite !lookup_insert. repeat case_decide; subst; eauto 10.
Qed.

Lemma prune_loop_total gpu_limit cpu_limit jobs : forall log,
  Forall job_record jobs ->
  exists jobs' log', prune_loop gpu_limit cpu_limit jobs log = Ok (jobs', log').
Proof.
  induction jobs as [|j rest IH]; intros log Hall; simpl; [eauto|].
  apply Forall_cons in Hall as [Hj Hrest].
  unfold prune_job.
  destruct (prune_field_record "num_gpu" "GPU" gpu_limit j log Hj)
    as (log1 & ->); [auto|]. rewrite bind_Ok_l.
  destruct (prune_field_record "num_cpu" "CPU" cpu_limit _ log1
              (clamp_field_record "num_gpu" gpu_limit j Hj)) as (log2 & ->);
    [auto|]. rewrite bind_Ok_l.
  destruct (IH log2 Hrest) as (rest' & log3 & ->). rewrite bind_Ok_l. eauto.
Qed.

Lemma large_job_pruning_None gpu_limit cpu_limit :
  large_job_pruning None gpu_limit cpu_limit = Ok ([], []).
Proof. reflexivity. Qed.

Lemma large_job_pruning_Ok jobs gpu_limit cpu_limit jobs' log :
  large_job_pruning (Some jobs) gpu_limit cpu_limit = Ok (jobs', log) ->
  jobs' = clamp_job gpu_limit cpu_limit <$> jobs /\
  Forall (fun j' => within "num_gpu" gpu_limit j' /\
                    within "num_cpu" cpu_limit j') jobs' /\
  length log = sum_list (clamps gpu_limit cpu_limit <$> jobs).
Proof. intros E. apply prune_loop_Ok in E. exact E. Qed.

Lemma exceeds_int key limit j z :
  j !! key = Some (VInt z) -> exceeds key limit j = (limit <? z).
Proof. intros E. unfold exceeds. rewrite E. apply num_gt_int. Qed.

Lemma clamp_field_other key key' limit j :
  key' <> key -> clamp_field key limit j !! key' = j !! key'.
Proof.
  intros Hne. unfold clamp_field. destruct (exceeds key limit j); [|done].
  by rewrite lookup_insert_ne.
Qed.

Lemma clamp_field_int key limit j z :
  j !! key = Some (VInt z) ->
  clamp_field key limit j !! key = Some (VInt (Z.min z limit)).
Proof.
  intros E. unfold clamp_field. rewrite (exceeds_int _ _ _ _ E).
  destruct (Z.ltb_spec limit z).
  - rewrite lookup_insert_eq. by rewrite Z.min_r by lia.
  - rewrite E. by rewrite Z.min_l by lia.
Qed.

Lemma clamp_field_id key limit j z :
  j !! key = Some (VInt z) -> z <= limit -> clamp_field key limit j = j.
Proof.
  intros E Hle. unfold clamp_field. rewrite (exceeds_int _ _ _ _ E).
  destruct (Z.ltb_spec limit z); [lia | done].
Qed.

Lemma clamp_job_frame gpu_limit cpu_limit j key :
  key <> "num_gpu" -> key <> "num_cpu" ->
  clamp_job gpu_limit cpu_limit j !! key = j !! key.
Proof.
  intros Hg Hc. unfold clamp_job. by rewrite !clamp_field_other.
Qed.

(** C5. On a list of job records, with any limits, [large_job_pruning]
    returns; afterwards every job has [num_gpu <= gpu_limit] and
    [num_cpu <= cpu_limit]; a [num_gpu] that exceeded the limit is exactly
    [gpu_limit] (likewise [num_cpu]); a job within both limits is
    unmodified; and the number of diagnostics equals the number of clamps. *)
Theorem large_job_pruning_clamps (jobs : list job) (gpu_limit cpu_limit : Z) :
  Forall job_record jobs ->
  exists jobs' log,
    large_job_pruning (Some jobs) gpu_limit cpu_limit = Ok (jobs', log) /\
    length jobs' = length jobs /\
    (forall i j j', jobs !! i = Some j -> jobs' !! i = Some j' ->
       exists g c g' c',
         j !! "num_gpu" = Some (VInt g) /\ j !! "num_cpu" = Some (VInt c) /\
         j' !! "num_gpu" = Some (VInt g') /\ j' !! "num_cpu" = Some (VInt c') /\
         g' <= gpu_limit /\ c' <= cpu_limit /\
         (gpu_limit < g -> g' = gpu_limit) /\
         (cpu_limit < c -> c' = cpu_limit) /\
         (g <= gpu_limit -> g' = g) /\
         (c <= cpu_limit -> c' = c) /\
         (g <= gpu_limit -> c <= cpu_limit -> j' = j)) /\
    length log = sum_list (clamps gpu_limit cpu_limit <$> jobs).
Proof.
  intros Hrec.
  destruct (prune_loop_total gpu_limit cpu_limit jobs [] Hrec)
    as (jobs' & log & E).
  exists jobs', log. split; [exact E|].
  apply large_job_pruning_Ok in E as (-> & _ & Hlog).
  split; [by rewrite length_fmap|]. split; [|exact Hlog].
  intros i j j' Hj Hj'. rewrite list_lookup_fmap, Hj in Hj'.
  injection Hj' as <-.
  rewrite Forall_lookup in Hrec.
  destruct (Hrec i j Hj) as (_ & _ & (g & Hg) & (c & Hc)).
  exists g, c, (Z.min g gpu_limit), (Z.min c cpu_limit).
  assert (Hg' : clamp_job gpu_limit cpu_limit j !! "num_gpu"
                = Some (VInt (Z.min g gpu_limit))).
  { unfold clamp_job. rewrite clamp_field_other by done.
    by apply clamp_field_int. }
  assert (Hc' : clamp_job gpu_limit cpu_limit j !! "num_cpu"
                = Some (VInt (Z.min c cpu_limit))).
  { unfold clamp_job. apply clamp_field_int.
    by rewrite clamp_field_other. }
  repeat (split; [first [assumption | lia]|]).
  intros Hgl Hcl. unfold clamp_job.
  rewrite (clamp_field_id "num_gpu" gpu_limit j g Hg Hgl).
  by apply (clamp_field_id "num_cpu" cpu_limit j c).
Qed.

Lemma big_job_record : job_record big_job.
Proof.
  unfold job_record, big_job.
  split; [by eexists|]. split; [by eexists|]. split; by eexists.
Qed.

Lemma large_job_pruning_clamps_witness :
  exists jobs' log,
    large_job_pruning (Some [big_job]) 100 9600 = Ok (jobs', log) /\
    length log = 1%nat.
Proof.
  destruct (large_job_pruning_clamps [big_job] 100 9600)
    as (jobs' & log & E & _ & _ & Hlog).
  - constructor; [exact big_job_record | constructor].
  - exists jobs', log. split; [exact E|]. rewrite Hlog. reflexivity.
Defined.

(** C6. [large_job_pruning] changes no field other than [num_gpu] and
    [num_cpu]: every other key of every job keeps its value, [size],
    [duration], [resource] and [submit_time] among them, so a [size] that
    was [(num_gpu + num_cpu) * duration] before a clamp is still that
    product of the old values afterwards. *)
Theorem large_job_pruning_frame (jobs jobs' : list job)
    (gpu_limit cpu_limit : Z) (log : list diag) :
  large_job_pruning (Some jobs) gpu_limit cpu_limit = Ok (jobs', log) ->
  length jobs' = length jobs /\
  forall i j j', jobs !! i = Some j -> jobs' !! i = Some j' ->
    (forall key, key <> "num_gpu" -> key <> "num_cpu" -> j' !! key = j !! key) /\
    j' !! "size" = j !! "size" /\
    j' !! "duration" = j !! "duration" /\
    j' !! "resource" = j !! "resource" /\
    j' !! "submit_time" = j !! "submit_time" /\
    (forall g c d,
       j !! "num_gpu" = Some (VInt g) -> j !! "num_cpu" = Some (VInt c) ->
       j !! "duration" = Some (VInt d) ->
       j !! "size" = Some (VInt ((g + c) * d)) ->
       j' !! "size" = Some (VInt ((g + c) * d))).
Proof.
  intros E. apply large_job_pruning_Ok in E as (-> & _ & _).
  split; [by rewrite length_fmap|].
  intros i j j' Hj Hj'. rewrite list_lookup_fmap, Hj in Hj'.
  injection Hj' as <-.
  repeat (split; [by auto using clamp_job_frame|]).
  intros g c d _ _ _ Hsize. by rewrite clamp_job_frame.
Qed.

Lemma large_job_pruning_frame_witness :
  large_job_pruning (Some [big_job]) 100 9600
    = Ok ([<["num_gpu" := VInt 100]> big_job],
          [Diag (JobRepr (VStr "j1") (VInt 100) (VInt 600) (VInt 5))
                "GPU" 150 100]) /\
  (<["num_gpu" := VInt 100]> big_job : job) !! "size"
    = Some (VInt ((150 + 600) * 5)).
Proof.
  assert (E : large_job_pruning (Some [big_job]) 100 9600
    = Ok ([<["num_gpu" := VInt 100]> big_job],
          [Diag (JobRepr (VStr "j1") (VInt 100) (VInt 600) (VInt 5))
                "GPU" 150 100])) by reflexivity.
  split; [exact E|].
  destruct (large_job_pruning_frame _ _ _ _ _ E) as (_ & Hframe).
  destruct (Hframe 0%nat big_job (<["num_gpu" := VInt 100]> big_job)
              eq_refl eq_refl) as (_ & _ & _ & _ & _ & Hsize).
  apply (Hsize 150 600 5); reflexivity.
Defined.

(** The clamped job's size is no longer the product of its own fields. *)
Example pruned_size_is_stale :
  let j' : job := <["num_gpu" := VInt 100]> big_job in
  j' !! "size" = Some (VInt 3750) /\
  j' !! "num_gpu" = Some (VInt 100) /\ j' !! "num_cpu" = Some (VInt 600) /\
  j' !! "duration" = Some (VInt 5) /\ (100 + 600) * 5 = 3500.
Proof. repeat (split; [reflexivity|]). reflexivity. Qed.

(** ** Lottery scheduling *)

(** Exchanging two items of a list permutes it. *)
Lemma swap_Permutation {A} (l : list A) (i j : nat) (x y : A) :
  l !! i = Some x -> l !! j = Some y ->
  <[j := x]> (<[i := y]> l) ≡ₚ l.
Proof.
  intros Hi Hj.
  assert (Hli : (i < length l)%nat) by eauto using lookup_lt_Some.
  assert (Hlj : (j < length l)%nat) by eauto using lookup_lt_Some.
  apply Permutation_inj. split; [by rewrite !length_insert|].
  exists (fun k => if decide (k = j) then i else if decide (k = i) then j else k).
  split.
  - intros a b. repeat case_decide; intros; subst; congruence.
  - intros k. rewrite !list_lookup_insert, !length_insert.
    repeat case_decide; subst; try congruence; try lia;
      repeat match goal with
             | Hn : ~ (_ /\ _) |- _ => apply not_and_l in Hn as [Hn | Hn]
             end; try congruence; try lia.
Qed.

Lemma sub_range_steps diff lo (n : nat) (l : list Z) (k : nat) :
  foldl (fun acc j => alter (fun c => c - diff) j acc) l (seq lo n) !! k
  = if decide (lo <= k < lo + n)%nat
    then (fun c => c - diff) <$> l !! k else l !! k.
Proof.
  induction n as [|n IH].
  - simpl. case_decide; [lia | done].
  - rewrite seq_S, foldl_app. simpl. rewrite list_lookup_alter.
    destruct (decide ((lo + n)%nat = k)) as [<- | Hne].
    + rewrite IH. repeat case_decide; try lia. done.
    + rewrite IH. repeat case_decide; try lia; done.
Qed.

Lemma sub_range_lookup diff lo hi (l : list Z) (k : nat) :
  sub_range diff lo hi l !! k
  = if decide (lo <= k < hi)%nat then (fun c => c - diff) <$> l !! k
    else l !! k.
Proof.
  unfold sub_range. rewrite sub_range_steps.
  repeat case_decide; try lia; done.
Qed.

Lemma sub_range_length diff lo hi (l : list Z) :
  length (sub_range diff lo hi l) = length l.
Proof.
  unfold sub_range. generalize (seq lo (hi - lo)). intros js. revert l.
  induction js as [|j js IH]; intros l; simpl; [done|].
  by rewrite IH, length_alter.
Qed.

Section LotteryFacts.
Context `{PyFloat}.

Lemma assign_tickets_ge_1 j w t : assign_tickets j w = Ok t -> 1 <= t.
Proof. unfold assign_tickets. intros E. inv_res. lia. Qed.

Lemma assign_tickets_numeric j :
  finite_dur j -> exists t, assign_tickets j 1 = Ok t /\ 1 <= t.
Proof.
  intros (n & Hn & Hfin). unfold assign_tickets, getitem. rewrite Hn.
  destruct n as [z|[q|negative|]]; simpl in *; try done;
    eexists; (split; [reflexivity | lia]).
Qed.

Lemma get_tickets_has j : has_tickets j -> exists t, get_tickets j = Ok t /\ 1 <= t.
Proof.
  intros (t & Ht & Hle). exists t. unfold get_tickets, getitem.
  rewrite Ht. done.
Qed.

Lemma lottery_assign_inv jobs : forall st,
  Forall finite_dur jobs -> lottery_inv st ->
  exists st' ts,
    lottery_assign jobs st = Ok st' /\ lottery_inv st' /\
    Forall2 (fun j t => assign_tickets j 1 = Ok t) jobs ts /\
    job_list st' = job_list st ++ with_tickets jobs ts.
Proof.
  induction jobs as [|j rest IH]; intros st Hnum Hinv; simpl.
  - exists st, []. split; [done|]. split; [done|]. split; [constructor|].
    unfold with_tickets. simpl. by rewrite app_nil_r.
  - apply Forall_cons in Hnum as [Hj Hrest].
    destruct (assign_tickets_numeric j Hj) as (t & Et & Ht).
    rewrite Et, bind_Ok_l.
    destruct Hinv as (Hlen & Hall & Hlast).
    edestruct (IH (LState (job_list st ++ [<["tickets" := VInt t]> j])
                          (cumulative_tickets st ++ [total_tickets st + t])
                          (total_tickets st + t)) Hrest)
      as (st' & ts & E & Hinv' & Hts & Hjobs).
    { split; [|split]; simpl.
      - rewrite !length_app. simpl. lia.
      - apply Forall_app. split; [done|]. constructor; [|constructor].
        exists t. by rewrite lookup_insert_eq.
      - intros c. rewrite last_snoc. intros [= <-]. lia. }
    exists st', (t :: ts). split; [exact E|]. split; [exact Hinv'|].
    split; [by constructor|].
    rewrite Hjobs. simpl. by rewrite <- app_assoc.
Qed.

Lemma lottery_iter_inv randint i st :
  valid_randint randint -> lottery_inv st ->
  (i < length (job_list st))%nat -> 0 < total_tickets st ->
  exists st', lottery_iter randint i st = Ok st' /\ lottery_inv st' /\
              job_list st' ≡ₚ job_list st.
Proof.
  intros Hrand (Hlen & Hall & Hlast) Hi Htot.
  unfold lottery_iter, random_randint.
  destruct (Z.leb_spec 1 (total_tickets st)) as [Hle|]; [|lia].
  rewrite bind_Ok_l.
  destruct (Hrand i 1 (total_tickets st) Hle) as [Hw1 Hw2].
  set (w := randint i 1 (total_tickets st)) in *.
  (* the search finds an index *)
  destruct (last (cumulative_tickets st)) as [c|] eqn:Ec; cycle 1.
  { apply last_None in Ec. rewrite Ec in Hlen. simpl in Hlen. lia. }
  assert (Hfind : is_Some (list_find (fun cumul => w <= cumul)
                                     (cumulative_tickets st))).
  { apply (list_find_elem_of _ _ c).
    - by apply last_Some_elem_of.
    - specialize (Hlast c eq_refl). lia. }
  destruct Hfind as [[wi x] Efind]. unfold first_index_ge. rewrite Efind.
  rewrite bind_Ok_l.
  apply list_find_Some in Efind as (Hx & Hwx & _).
  assert (Hwi : (wi < length (job_list st))%nat).
  { rewrite <- Hlen. eauto using lookup_lt_Some. }
  destruct (lookup_lt_is_Some_2 (job_list st) i Hi) as [ji Eji].
  destruct (lookup_lt_is_Some_2 (job_list st) wi Hwi) as [jw Ejw].
  unfold list_getitem. rewrite Eji, bind_Ok_l, Ejw, bind_Ok_l.
  set (jobs' := <[wi := ji]> (<[i := jw]> (job_list st))).
  assert (Hall' : Forall has_tickets jobs').
  { rewrite Forall_lookup in Hall.
    apply Forall_insert; [apply Forall_insert|]; eauto.
    by apply Forall_lookup. }
  assert (Hlen' : length jobs' = length (job_list st)).
  { unfold jobs'. by rewrite !length_insert. }
  destruct (lookup_lt_is_Some_2 jobs' i) as [placed Eplaced]; [lia|].
  rewrite Eplaced, bind_Ok_l.
  destruct (get_tickets_has placed) as (t & Et & Ht).
  { rewrite Forall_lookup in Hall'. eauto. }
  rewrite Et, bind_Ok_l.
  eexists. split; [reflexivity|]. split; [|by apply swap_Permutation].
  split; [|split]; simpl.
  - case_decide; [lia|]. rewrite sub_range_length. lia.
  - exact Hall'.
  - intros c'. case_decide.
    + rewrite Ec. intros [= <-]. specialize (Hlast c eq_refl). lia.
    + rewrite last_lookup, sub_range_length, sub_range_lookup.
      rewrite <- last_lookup, Ec. specialize (Hlast c eq_refl).
      case_decide; simpl; intros [= <-]; lia.
Qed.

Lemma lottery_loop_no_tickets randint n i st :
  total_tickets st <= 0 -> lottery_loop randint n i st = Ok st.
Proof.
  intros Hle. destruct n as [|n]; simpl; [done|].
  destruct (Z.leb_spec (total_tickets st) 0); [done | lia].
Qed.

Lemma lottery_loop_inv randint n : forall i st,
  valid_randint randint -> lottery_inv st ->
  (i + n <= length (job_list st))%nat ->
  exists st', lottery_loop randint n i st = Ok st' /\ lottery_inv st' /\
              job_list st' ≡ₚ job_list st.
Proof.
  induction n as [|n IH]; intros i st Hrand Hinv Hn; simpl.
  - by exists st.
  - destruct (Z.leb_spec (total_tickets st) 0) as [Hle|Hgt]; [by exists st|].
    destruct (lottery_iter_inv randint i st Hrand Hinv) as (st1 & E1 & Hinv1 & Hp1);
      [lia | lia |].
    rewrite E1, bind_Ok_l.
    destruct (IH (S i) st1 Hrand Hinv1) as (st' & E' & Hinv' & Hp').
    { rewrite (Permutation_length Hp1). lia. }
    exists st'. split; [exact E'|]. split; [exact Hinv'|].
    by rewrite Hp'.
Qed.

(** C10, as amended. On jobs whose [group_gpu_dur] is an int or a finite
    float and with draws that lie in the range asked for, [lottery_sort]
    returns: every ticket count is at least 1; no draw is made once the
    tickets left are not positive; after any number of iterations the
    last cumulative entry is at least the tickets left, so the search
    finds an index; and the final list is a permutation of the input jobs
    (each carrying its tickets). *)
Theorem lottery_sort_total (randint : rand_source) (jobs : list job) :
  valid_randint randint -> Forall finite_dur jobs ->
  (forall j, j ∈ jobs -> exists t, assign_tickets j 1 = Ok t /\ 1 <= t) /\
  (forall n i st, total_tickets st <= 0 -> lottery_loop randint n i st = Ok st) /\
  exists st0 ts,
    lottery_assign jobs (LState [] [] 0) = Ok st0 /\
    Forall2 (fun j t => assign_tickets j 1 = Ok t) jobs ts /\
    job_list st0 = with_tickets jobs ts /\
    (forall k, (k <= length jobs)%nat ->
       exists st, lottery_loop randint k 0 st0 = Ok st /\
         length (cumulative_tickets st) = length jobs /\
         (forall c, last (cumulative_tickets st) = Some c ->
                    total_tickets st <= c) /\
         job_list st ≡ₚ with_tickets jobs ts) /\
    exists sorted, lottery_sort randint jobs = Ok sorted /\
                   sorted ≡ₚ with_tickets jobs ts.
Proof.
  intros Hrand Hnum. split; [|split].
  - intros j Hj. rewrite Forall_forall in Hnum.
    by apply assign_tickets_numeric, Hnum.
  - intros n i st. apply lottery_loop_no_tickets.
  - destruct (lottery_assign_inv jobs (LState [] [] 0) Hnum)
      as (st0 & ts & E0 & Hinv0 & Hts & Hjobs).
    { split; [done|]. split; [constructor|]. simpl. discriminate. }
    simpl in Hjobs.
    assert (Hlen0 : length (job_list st0) = length jobs).
    { rewrite Hjobs. unfold with_tickets. rewrite length_zip_with_l_eq; [done|].
      by eapply Forall2_length. }
    exists st0, ts. repeat (split; [done|]). split.
    + intros k Hk.
      destruct (lottery_loop_inv randint k 0 st0 Hrand Hinv0)
        as (st & E & (Hlen & Hall & Hlast) & Hp); [lia|].
      exists st. split; [exact E|]. split.
      { rewrite Hlen, (Permutation_length Hp). done. }
      split; [exact Hlast|]. by rewrite Hp, Hjobs.
    + destruct (lottery_loop_inv randint (length (job_list st0)) 0 st0
                  Hrand Hinv0) as (st & E & _ & Hp); [lia|].
      exists (job_list st). unfold lottery_sort.
      rewrite E0, bind_Ok_l, E, bind_Ok_l. split; [done|].
      by rewrite Hp, Hjobs.
Qed.

End LotteryFacts.

Lemma lowest_ticket_valid : valid_randint lowest_ticket.
Proof. intros k a b Hle. unfold lowest_ticket. lia. Qed.

Lemma high_then_low_valid : valid_randint high_then_low.
Proof.
  intros k a b Hle. unfold high_then_low. destruct (k =? 0)%nat; lia.
Qed.

Lemma lottery_sort_total_witness :
  exists sorted,
    @lottery_sort exact_float high_then_low
      [job_of "a" "g" 5; job_of "b" "g" 1; job_of "c" "g" 1] = Ok sorted.
Proof.
  destruct (@lottery_sort_total exact_float high_then_low
              [job_of "a" "g" 5; job_of "b" "g" 1; job_of "c" "g" 1])
    as (_ & _ & st0 & ts & _ & _ & _ & _ & sorted & E & _).
  - exact high_then_low_valid.
  - repeat constructor; by eexists.
  - exists sorted. exact E.
Defined.

(** C10, as stated, fails: a [group_gpu_dur] that is the float [inf] or
    [nan] is numeric, and [int()] of it raises in [assign_tickets], so
    [lottery_sort] raises OverflowError or ValueError.  [_add_job] builds
    such a job from a row whose [group_gpu_dur] is the text [inf]. *)
Lemma lottery_sort_inf_raises :
  numeric_dur inf_job /\
  @lottery_sort exact_float lowest_ticket [inf_job] = Raise OverflowError /\
  numeric_dur nan_job /\
  @lottery_sort exact_float lowest_ticket [nan_job] = Raise ValueError /\
  @_add_job exact_float [] inf_row None = Ok [built_inf_row] /\
  numeric_dur built_inf_row /\
  @lottery_sort exact_float lowest_ticket [built_inf_row]
    = Raise OverflowError.
Proof.
  split; [by eexists|]. split; [reflexivity|].
  split; [by eexists|]. split; [reflexivity|].
  split; [reflexivity|]. split; [by eexists | reflexivity].
Qed.

(** C2 (evaluation). Two jobs with one ticket each, every draw the lowest
    ticket.  The first draw selects job [a] at index 0; no cumulative
    entry is changed, so the array is [1; 2] although the only job left
    has 1 ticket (prefix sums over the jobs not yet selected: nothing
    before index 1, then 1).  The second draw therefore finds index 0,
    below the current position 1, and the job already placed is selected
    again and moved to the end.  With three jobs of 5, 1 and 1 tickets
    and a first draw of 7, the entries after the subtraction are
    [4; 5; 6], not the prefix sums [1; 6] of the two jobs left, and the
    next draw of 1 again finds index 0. *)
Theorem lottery_sort_reselects :
  lottery_loop lowest_ticket 1 0
     (LState [ticketed "a" "g" 1; ticketed "b" "g" 1] [1; 2] 2)
    = Ok (LState [ticketed "a" "g" 1; ticketed "b" "g" 1] [1; 2] 1) /\
  first_index_ge 1 [1; 2] = Ok 0%nat /\
  @lottery_sort exact_float lowest_ticket [job_of "a" "g" 1; job_of "b" "g" 1]
    = Ok [ticketed "b" "g" 1; ticketed "a" "g" 1] /\
  lottery_loop high_then_low 1 0
     (LState [ticketed "a" "g" 5; ticketed "b" "g" 1; ticketed "c" "g" 1]
             [5; 6; 7] 7)
    = Ok (LState [ticketed "c" "g" 1; ticketed "b" "g" 1; ticketed "a" "g" 5]
                 [4; 5; 6] 6) /\
  first_index_ge 1 [4; 5; 6] = Ok 0%nat /\
  @lottery_sort exact_float high_then_low
     [job_of "a" "g" 5; job_of "b" "g" 1; job_of "c" "g" 1]
    = Ok [ticketed "a" "g" 5; ticketed "c" "g" 1; ticketed "b" "g" 1].
Proof. repeat (split; [reflexivity|]). reflexivity. Qed.

(** ** Fair share *)

Lemma mapM_res_Ok {A B} (f : A -> res B) (l : list A) (k : list B) :
  mapM f l = Ok k -> Forall2 (fun x y => f x = Ok y) l k.
Proof.
  revert k. induction l as [|x l IH]; intros k E; simpl in E.
  - inv_res. constructor.
  - inv_res. constructor; [done | by apply IH].
Qed.

Lemma insert_sorted_equal {A} (x : pynum * A) (l : list (pynum * A)) :
  Forall (fun y => num_lt (fst y) (fst x) = false) l ->
  insert_sorted x l = x :: l.
Proof.
  intros Hall. destruct l as [|y l]; simpl; [done|].
  apply Forall_cons in Hall as [-> _]. done.
Qed.

(** Sorting items that all carry the key 0 leaves them as they are. *)
Lemma stable_sort_zero_keys {A} (l : list (pynum * A)) :
  Forall (fun y => fst y = NInt 0) l -> stable_sort l = l.
Proof.
  induction l as [|x l IH]; intros Hall; simpl; [done|].
  apply Forall_cons in Hall as [Hx Hl]. rewrite IH by done.
  apply insert_sorted_equal. eapply Forall_impl; [exact Hl|].
  intros y Hy. simpl in Hy. by rewrite Hy, Hx.
Qed.

Section FairShareFacts.
Context `{PyFloat}.

Lemma fair_share_init_zero field jobs : forall used used',
  all_zero used -> fair_share_init field jobs used = Ok used' -> all_zero used'.
Proof.
  induction jobs as [|j rest IH]; intros used used' Hz E; simpl in E.
  - by inv_res.
  - inv_res. eapply IH; [|exact E].
    destruct (used !! a0) eqn:Ek; [done|]. by apply map_Forall_insert_2.
Qed.

Lemma fair_share_key_zero field used j n :
  all_zero used -> fair_share_key field used j = Ok n -> n = NInt 0.
Proof.
  intros Hz E. unfold fair_share_key in E. inv_res.
  destruct (used !! a0) eqn:Ek; [|discriminate]. inv_res. by eapply Hz.
Qed.

(** The sort of [fair_share_group] and [fair_share_user] never moves a
    job: at the time of the sort every consumer's usage is 0. *)
Lemma fair_share_run_keeps_order field jobs sorted used :
  fair_share_run field jobs = Ok (sorted, used) -> sorted = jobs.
Proof.
  unfold fair_share_run. intros E. inv_res.
  assert (Hz : all_zero a).
  { eapply fair_share_init_zero; [|exact Ea]. apply map_Forall_empty. }
  apply mapM_res_Ok in Ea0.
  assert (Hkeys : Forall (fun n => n = NInt 0) a0).
  { clear -Ea0 Hz. induction Ea0 as [|j n jobs keys E _ IH]; constructor; [|done].
    by eapply fair_share_key_zero. }
  rewrite stable_sort_zero_keys.
  - apply snd_zip. apply Forall2_length in Ea0. lia.
  - clear -Hkeys. revert jobs. induction Hkeys as [|n keys -> _ IH];
      intros [|j jobs]; simpl; constructor; auto.
Qed.

Lemma fair_share_group_keeps_order jobs sorted :
  fair_share_group jobs = Ok sorted -> sorted = jobs.
Proof.
  unfold fair_share_group. destruct (fair_share_run "group" jobs) as [[s u]|] eqn:E;
    simpl; [|discriminate].
  intros [= <-]. by eapply fair_share_run_keeps_order.
Qed.

Lemma fair_share_user_keeps_order jobs sorted :
  fair_share_user jobs = Ok sorted -> sorted = jobs.
Proof.
  unfold fair_share_user. destruct (fair_share_run "user" jobs) as [[s u]|] eqn:E;
    simpl; [|discriminate].
  intros [= <-]. by eapply fair_share_run_keeps_order.
Qed.

End FairShareFacts.

(** C1 (evaluation). Group [g1] submits a job of 10 time units and group
    [g2] a job of 1, both starting from usage 0.  The first call leaves
    the order as it is and ends with usage 10 for [g1] and 1 for [g2] in
    its local dict; the next call starts again from an empty dict, so the
    job of [g2], the group with fewer scheduled time units, still comes
    second.  [fair_share_user] behaves the same. *)
Theorem fair_share_does_not_rotate :
  @fair_share_run exact_float "group" [job_of "a" "g1" 10; job_of "b" "g2" 1]
    = Ok ([job_of "a" "g1" 10; job_of "b" "g2" 1],
          {[ key_of_str "g1" := NInt 10; key_of_str "g2" := NInt 1 ]}) /\
  (@fair_share_group exact_float [job_of "a" "g1" 10; job_of "b" "g2" 1]
     ≫= @fair_share_group exact_float)
    = Ok [job_of "a" "g1" 10; job_of "b" "g2" 1] /\
  @fair_share_run exact_float "user" [job_of "a" "g1" 10; job_of "b" "g2" 1]
    = Ok ([job_of "a" "g1" 10; job_of "b" "g2" 1],
          {[ key_of_str "a" := NInt 10; key_of_str "b" := NInt 1 ]}) /\
  (@fair_share_user exact_float [job_of "a" "g1" 10; job_of "b" "g2" 1]
     ≫= @fair_share_user exact_float)
    = Ok [job_of "a" "g1" 10; job_of "b" "g2" 1].
Proof. repeat (split; [reflexivity|]). reflexivity. Qed.

(** ** Job record builder *)

Section AddJobFacts.
Context `{PyFloat}.

Lemma convert_row_lookup job_dict d0 key :
  convert_row job_dict = Ok d0 ->
  match job_dict !! key with
  | Some v => exists v', convert_entry key v = Ok v' /\ d0 !! key = Some v'
  | None => d0 !! key = None
  end.
Proof.
  unfold convert_row.
  destruct (head (omap entry_error (map_to_list job_dict))) as [e|] eqn:Eh;
    [discriminate|].
  intros [= <-]. rewrite map_lookup_imap.
  destruct (job_dict !! key) as [v|] eqn:Ev; simpl; [|done].
  apply head_None in Eh.
  assert (Hin : (key, v) ∈ map_to_list job_dict) by by apply elem_of_map_to_list.
  assert (Herr : entry_error (key, v) = None).
  { destruct (entry_error (key, v)) as [e|] eqn:Ee; [|done].
    assert (Habs : e ∈ omap entry_error (map_to_list job_dict)).
    { apply list_elem_of_omap. eauto. }
    rewrite Eh in Habs. by apply elem_of_nil in Habs. }
  unfold entry_error, entry_value in *. simpl in Herr.
  destruct (convert_entry key v) as [v'|e]; [eauto | discriminate].
Qed.

Lemma default_field_Ok key d d' :
  default_field key d = Ok d' -> exists z, d' = <[key := VInt z]> d.
Proof.
  unfold default_field.
  destruct (match d !! key with
            | None => true | Some (VStr EmptyString) => true | Some _ => false
            end).
  - intros [= <-]. eauto.
  - intros E. inv_res. case_bool_decide; inv_res; eauto.
Qed.

Lemma add_estimates_lookup describe_dict d d' key :
  add_estimates describe_dict d = Ok d' ->
  key ∉ ["dur_trim_mean"; "dur_med"; "dur_std"; "dur_avg"] ->
  d' !! key = d !! key.
Proof.
  unfold add_estimates. intros E Hkey.
  destruct describe_dict as [dd|]; [|by inv_res].
  inv_res.
  destruct (match a0 with Some (inl name) => dd !! name | _ => None end)
    as [jd_user|]; [|by inv_res].
  inv_res. rewrite !lookup_insert_ne; [done|..];
    intros <-; apply Hkey; set_solver.
Qed.

Lemma drop_cols_lookup (d : job) key :
  key ∉ drop_cols -> foldl (fun d col => delete col d) d drop_cols !! key = d !! key.
Proof.
  generalize drop_cols. intros cols. revert d.
  induction cols as [|col cols IH]; intros d Hkey; simpl; [done|].
  rewrite IH by set_solver. apply lookup_delete_ne. set_solver.
Qed.

Lemma get_int_Ok (d : job) key z :
  get_int d key = Ok z <-> d !! key = Some (VInt z).
Proof.
  unfold get_int, getitem. destruct (d !! key) as [[| |[]|]|]; simpl;
    split; intros E; try discriminate; congruence.
Qed.

Lemma add_scheduling_entries_Ok d d' :
  add_scheduling_entries d = Ok d' ->
  exists v (x : Q) g c,
    d !! "duration" = Some v /\ py_float v = Ok (Finite x) /\
    d !! "num_gpu" = Some (VInt g) /\ d !! "num_cpu" = Some (VInt c) /\
    d' !! "duration" = Some (VInt (Z.max (Qtrunc x) 1)) /\
    d' !! "num_gpu" = Some (VInt g) /\ d' !! "num_cpu" = Some (VInt c) /\
    d' !! "size" = Some (VInt ((g + c) * Z.max (Qtrunc x) 1)).
Proof.
  unfold add_scheduling_entries. intros E.
  apply bind_Ok in E as (v & Ev & E). apply getitem_Ok in Ev.
  apply bind_Ok in E as (fx & Ex & E).
  apply bind_Ok in E as (t & Et & E). cbv zeta in E.
  destruct fx as [x| |]; try discriminate Et. injection Et as <-.
  set (d1 := <["duration" := VInt (Qtrunc x)]> d) in *.
  set (d2 := if Qtrunc x <=? 0 then <["duration" := VInt 1]> d1 else d1) in *.
  assert (Hdur : d2 !! "duration" = Some (VInt (Z.max (Qtrunc x) 1))).
  { unfold d2, d1. destruct (Z.leb_spec (Qtrunc x) 0).
    - rewrite lookup_insert_eq. by rewrite Z.max_r by lia.
    - rewrite lookup_insert_eq. by rewrite Z.max_l by lia. }
  assert (Hother : forall k, k <> "duration" -> d2 !! k = d !! k).
  { intros k Hk. unfold d2, d1. destruct (Qtrunc x <=? 0);
      by rewrite ?lookup_insert_ne. }
  apply bind_Ok in E as (g & Eg & E). apply get_int_Ok in Eg.
  apply bind_Ok in E as (c & Ec & E). apply get_int_Ok in Ec.
  apply bind_Ok in E as (dur & Ed & E). apply get_int_Ok in Ed.
  rewrite Hdur in Ed. injection Ed as <-.
  rewrite Hother in Eg, Ec by done.
  injection E as <-.
  exists v, x, g, c.
  rewrite !lookup_insert_ne by done. rewrite lookup_insert_eq.
  rewrite Hdur, !Hother by done. done.
Qed.

Lemma convert_duration raw v (x : Q) :
  float_int_roundtrip ->
  convert_entry "duration" raw = Ok v -> py_float v = Ok (Finite x) ->
  py_float raw = Ok (Finite x).
Proof.
  intros Hlaw Ec Ef. unfold convert_entry in Ec.
  destruct raw as [|s|n|l]; try discriminate.
  - by injection Ec as <-.
  - rewrite bool_decide_true in Ec by done. rewrite andb_true_r in Ec.
    destruct (isdigit s) eqn:Ed.
    + destruct (float_of_str s) as [[q| |]|] eqn:Eq; try discriminate.
      injection Ec as <-. unfold py_float in *. rewrite Eq.
      injection Ef as <-. by rewrite (Hlaw s q).
    + rewrite bool_decide_false in Ec.
      * by injection Ec as <-.
      * unfold dur_keys. intros Hin.
        repeat (apply elem_of_cons in Hin as [Heq|Hin]; [discriminate|]).
        by apply elem_of_nil in Hin.
Qed.

Ltac not_in_strings :=
  let Hin := fresh "Hin" in
  intros Hin;
  repeat (apply elem_of_cons in Hin as [Hin|Hin]; [discriminate Hin|]);
  by apply elem_of_nil in Hin.

(** C7. Every record [_add_job] produces has
    [duration = max(int(float(raw_duration)), 1)], hence [duration >= 1],
    and [size = (num_gpu + num_cpu) * duration] over the record's own
    (normalised) [num_gpu], [num_cpu] and [duration]. *)
Theorem add_job_duration_size (job_list : list job) (job_dict : job)
    (describe_dict : option (gmap string job)) (result : list job) :
  float_int_roundtrip ->
  _add_job job_list job_dict describe_dict = Ok result ->
  exists built raw (x : Q) g c,
    result = job_list ++ [built] /\
    job_dict !! "duration" = Some raw /\ py_float raw = Ok (Finite x) /\
    built !! "duration" = Some (VInt (Z.max (Qtrunc x) 1)) /\
    1 <= Z.max (Qtrunc x) 1 /\
    built !! "num_gpu" = Some (VInt g) /\
    built !! "num_cpu" = Some (VInt c) /\
    built !! "size" = Some (VInt ((g + c) * Z.max (Qtrunc x) 1)).
Proof.
  intros Hlaw E. unfold _add_job in E.
  apply bind_Ok in E as (d0 & E0 & E).
  apply bind_Ok in E as (d1 & E1 & E). apply default_field_Ok in E1 as [z1 ->].
  apply bind_Ok in E as (d2 & E2 & E). apply default_field_Ok in E2 as [z2 ->].
  apply bind_Ok in E as (d3 & E3 & E). apply default_field_Ok in E3 as [z3 ->].
  apply bind_Ok in E as (d4 & E4 & E). apply default_field_Ok in E4 as [z4 ->].
  apply bind_Ok in E as (d5 & E5 & E).
  apply bind_Ok in E as (d6 & E6 & E). cbv zeta in E. injection E as <-.
  apply add_scheduling_entries_Ok in E5
    as (v & x & g & c & Hv & Hx & _ & _ & Hdur & Hg & Hc & Hsize).
  rewrite !lookup_insert_ne in Hv by done.
  pose proof (convert_row_lookup job_dict d0 "duration" E0) as Hrow.
  destruct (job_dict !! "duration") as [raw|] eqn:Eraw; [|congruence].
  destruct Hrow as (v' & Hconv & Hv'). rewrite Hv in Hv'. injection Hv' as <-.
  exists (foldl (fun d col => delete col d) d6 drop_cols), raw, x, g, c.
  split; [done|]. split; [done|].
  split; [by eapply convert_duration|].
  rewrite !drop_cols_lookup by (unfold drop_cols; not_in_strings).
  rewrite !(add_estimates_lookup _ _ _ _ E6) by not_in_strings.
  repeat (split; [first [assumption | lia]|]). assumption.
Qed.

End AddJobFacts.

Lemma py_round_inject_Z (z : Z) : py_round (inject_Z z) = z.
Proof.
  unfold py_round. rewrite Qfloor_Z.
  replace (Qcompare (inject_Z z - inject_Z z) (1 # 2)) with Lt; [done|].
  symmetry. unfold Qcompare, Qminus, Qplus, Qopp, inject_Z. simpl.
  apply Z.compare_lt_iff. lia.
Qed.

Lemma exact_float_roundtrip : @float_int_roundtrip exact_float.
Proof.
  intros s q _ Eq. simpl in *.
  destruct (String.eqb s "inf"); [discriminate|].
  destruct (String.eqb s "nan"); [discriminate|].
  destruct (nat_of_str s) as [n|]; [|discriminate].
  injection Eq as <-. by rewrite py_round_inject_Z.
Qed.

Example add_job_raw_row :
  @_add_job exact_float [] raw_row None = Ok [built_row].
Proof. reflexivity. Qed.

Lemma add_job_duration_size_witness :
  exists built g c,
    @_add_job exact_float [] raw_row None = Ok [built] /\
    built !! "duration" = Some (VInt 12) /\
    built !! "num_gpu" = Some (VInt g) /\
    built !! "num_cpu" = Some (VInt c) /\
    built !! "size" = Some (VInt ((g + c) * 12)).
Proof.
  destruct (@add_job_duration_size exact_float [] raw_row None [built_row]
              exact_float_roundtrip add_job_raw_row)
    as (built & raw & x & g & c & Hres & Hraw & Hx & Hd & _ & Hg & Hc & Hs).
  injection Hres as <-.
  assert (raw = VStr "12") as -> by (by injection Hraw as <-).
  assert (x = inject_Z 12) as -> by (by injection Hx as <-).
  exists built_row, g, c. split; [exact add_job_raw_row|].
  split; [exact Hd|]. split; [exact Hg|]. split; [exact Hc|]. exact Hs.
Defined.

(** ** Replay buffer *)

Lemma add_experience_items rb e :
  ReplayBuffer.memory (add_experience rb e)
  = deque_append (ReplayBuffer.memory rb) e.
Proof. by destruct e. Qed.

Lemma deque_append_maxlen {A} (d : deque A) x :
  maxlen (deque_append d x) = maxlen d.
Proof. reflexivity. Qed.

Lemma deque_append_bound {A} (d : deque A) x :
  (N.of_nat (length (items d)) <= maxlen d)%N ->
  (N.of_nat (length (items (deque_append d x))) <= maxlen d)%N.
Proof.
  intros Hle. unfold deque_append. simpl. case_decide as Hc.
  - destruct (items d) as [|y l]; simpl in *; [lia|].
    rewrite length_app in *. simpl in *. lia.
  - lia.
Qed.

Lemma deque_append_full {A} (d : deque A) x oldest rest :
  items d = oldest :: rest -> N.of_nat (length (items d)) = maxlen d ->
  items (deque_append d x) = rest ++ [x].
Proof.
  intros Hitems Hfull. unfold deque_append. simpl.
  rewrite decide_True by (rewrite length_app; simpl; lia).
  by rewrite Hitems.
Qed.

Lemma deque_append_room {A} (d : deque A) x :
  (N.of_nat (length (items d)) < maxlen d)%N ->
  items (deque_append d x) = items d ++ [x].
Proof.
  intros Hlt. unfold deque_append. simpl.
  by rewrite decide_False by (rewrite length_app; simpl; lia).
Qed.

Lemma add_all_snoc rb es e :
  add_all rb (es ++ [e]) = add_experience (add_all rb es) e.
Proof. unfold add_all. by rewrite foldl_app. Qed.

Lemma add_all_maxlen rb es :
  maxlen (ReplayBuffer.memory (add_all rb es)) = maxlen (ReplayBuffer.memory rb).
Proof.
  induction es as [|e es IH] using rev_ind; [done|].
  by rewrite add_all_snoc, add_experience_items, deque_append_maxlen.
Qed.

(** After any sequence of [add] calls on a fresh buffer, the memory holds
    the last [buffer_size] experiences added, in insertion order. *)
Lemma add_all_items action_size buffer_size batch_size seed es :
  items (ReplayBuffer.memory
           (add_all (ReplayBuffer.init action_size buffer_size batch_size seed) es))
  = drop (length es - N.to_nat buffer_size) es.
Proof.
  induction es as [|e es IH] using rev_ind; [done|].
  rewrite add_all_snoc, add_experience_items. unfold deque_append.
  rewrite add_all_maxlen, IH. simpl. rewrite !length_app, length_drop. simpl.
  case_decide as Hc.
  - replace (length es + 1 - N.to_nat buffer_size)%nat
      with (length es - N.to_nat buffer_size + 1)%nat by lia.
    rewrite <- drop_drop, drop_app_le by lia.
    generalize (drop (length es - N.to_nat buffer_size) es ++ [e]).
    intros l. by destruct l.
  - replace (length es + 1 - N.to_nat buffer_size)%nat with 0%nat by lia.
    replace (length es - N.to_nat buffer_size)%nat with 0%nat by lia.
    done.
Qed.

(** C8. After every sequence of [add] calls on a fresh buffer the length
    is at most the capacity, and the memory holds the last [capacity]
    experiences in insertion order; adding to a buffer that is at capacity
    drops exactly the oldest stored experience and keeps the order of the
    rest, the new one coming last. *)
Theorem replay_buffer_ring (action_size : nat) (buffer_size : N)
    (batch_size : nat) (seed : Z) (es : list Experience) :
  let fresh := ReplayBuffer.init action_size buffer_size batch_size seed in
  (N.of_nat (ReplayBuffer.len (add_all fresh es)) <= buffer_size)%N /\
  items (ReplayBuffer.memory (add_all fresh es))
    = drop (length es - N.to_nat buffer_size) es /\
  forall (rb : ReplayBuffer.t) oldest rest s a r ns d,
    items (ReplayBuffer.memory rb) = oldest :: rest ->
    N.of_nat (ReplayBuffer.len rb) = maxlen (ReplayBuffer.memory rb) ->
    items (ReplayBuffer.memory (ReplayBuffer.add rb s a r ns d))
      = rest ++ [mkExperience s a r ns d] /\
    ReplayBuffer.len (ReplayBuffer.add rb s a r ns d) = ReplayBuffer.len rb.
Proof.
  intros fresh. split; [|split].
  - unfold ReplayBuffer.len, fresh. rewrite add_all_items, length_drop. lia.
  - apply add_all_items.
  - intros rb oldest rest s a r ns d Hitems Hfull.
    unfold ReplayBuffer.len in *.
    change (ReplayBuffer.memory (ReplayBuffer.add rb s a r ns d))
      with (deque_append (ReplayBuffer.memory rb) (mkExperience s a r ns d)).
    rewrite (deque_append_full _ _ oldest rest Hitems Hfull).
    split; [done|]. rewrite Hitems, length_app. simpl. lia.
Qed.

Lemma replay_buffer_ring_witness :
  items (ReplayBuffer.memory
     (ReplayBuffer.add
        (add_all (ReplayBuffer.init 4 2 1 0) [exp_n 1; exp_n 2])
        [3%Q] 3 0%Q [] false))
  = [exp_n 2] ++ [mkExperience [3%Q] 3 0%Q [] false].
Proof.
  destruct (replay_buffer_ring 4 2 1 0 [exp_n 1; exp_n 2]) as (_ & _ & Hfull).
  apply (Hfull _ (exp_n 1) [exp_n 2]); reflexivity.
Defined.

(** ** DQN agent *)

Lemma argmax_from_spec (rest : list Q) : forall (pre : list Q) best_index best,
  pre !! best_index = Some best ->
  (forall y, y ∈ pre -> (y <= best)%Q) ->
  (forall j y, (j < best_index)%nat -> pre !! j = Some y -> (y < best)%Q) ->
  exists x,
    (pre ++ rest) !! argmax_from best_index best (length pre) rest = Some x /\
    (forall y, y ∈ pre ++ rest -> (y <= x)%Q) /\
    (forall j y, (j < argmax_from best_index best (length pre) rest)%nat ->
                 (pre ++ rest) !! j = Some y -> (y < x)%Q).
Proof.
  induction rest as [|x rest IH]; intros pre bi b Hb Hmax Hfirst; simpl.
  - exists b. rewrite app_nil_r. auto.
  - destruct (Qle_bool x b) eqn:Ex; simpl.
    + apply Qle_bool_iff in Ex.
      destruct (IH (pre ++ [x]) bi b) as (m & Hm & Hall & Hlt).
      * by apply lookup_app_l_Some.
      * intros y [Hy | ->%list_elem_of_singleton]%elem_of_app; auto.
      * intros j y Hj Hy. apply (Hfirst j y Hj).
        rewrite lookup_app_l in Hy; [done|].
        apply lookup_lt_Some in Hb. lia.
      * rewrite length_app in *. simpl in *.
        rewrite Nat.add_1_r, <- app_assoc in *. simpl in *. eauto.
    + assert (Hbx : (b < x)%Q).
      { apply Qnot_le_lt. intros Hle. apply Qle_bool_iff in Hle. congruence. }
      destruct (IH (pre ++ [x]) (length pre) x) as (m & Hm & Hall & Hlt).
      * by rewrite lookup_app_r, Nat.sub_diag by lia.
      * intros y [Hy | ->%list_elem_of_singleton]%elem_of_app.
        -- apply Qlt_le_weak. eapply Qle_lt_trans; [by apply Hmax | done].
        -- apply Qle_refl.
      * intros j y Hj Hy. rewrite lookup_app_l in Hy by done.
        eapply Qle_lt_trans; [|exact Hbx]. apply Hmax.
        by eapply list_elem_of_lookup_2.
      * rewrite length_app in *. simpl in *.
        rewrite Nat.add_1_r, <- app_assoc in *. simpl in *. eauto.
Qed.

(** [np_argmax] returns the first index that holds the largest value. *)
Lemma np_argmax_spec (values : list Q) (i : nat) :
  np_argmax values = Ok i ->
  exists x, values !! i = Some x /\
            (forall y, y ∈ values -> (y <= x)%Q) /\
            (forall j y, (j < i)%nat -> values !! j = Some y -> (y < x)%Q).
Proof.
  destruct values as [|x rest]; simpl; [discriminate|]. intros [= <-].
  apply (argmax_from_spec rest [x] 0%nat x).
  - done.
  - intros y ->%list_elem_of_singleton. apply Qle_refl.
  - intros j y Hj. lia.
Qed.

Lemma forallb_Forall {A} (f : A -> bool) (P : A -> Prop) (l : list A) :
  (forall x, f x = true <-> P x) -> forallb f l = true <-> Forall P l.
Proof.
  intros Hf. induction l as [|x l IH]; simpl.
  - split; [constructor | done].
  - rewrite andb_true_iff, Forall_cons, Hf, IH. done.
Qed.

(** Vectors of one length stack. *)
Lemma np_vstack_same (rows : list (list Q)) (n : nat) :
  rows <> [] -> Forall (fun row => length row = n) rows ->
  np_vstack rows = Ok rows.
Proof.
  destruct rows as [|row rest]; [done|]. intros _ Hall.
  apply Forall_cons in Hall as [Hrow Hrest]. simpl.
  replace (forallb (fun r => (length r =? length row)%nat) rest) with true;
    [done|].
  symmetry. apply (forallb_Forall _ (fun r => length r = length row)).
  - intros r. apply Nat.eqb_eq.
  - eapply Forall_impl; [exact Hrest|]. intros r Hr. simpl in Hr. congruence.
Qed.

Lemma np_vstack_nil : np_vstack [] = Raise ValueError.
Proof. reflexivity. Qed.

Lemma take_valid_sampler : valid_sampler (fun population k => take k population).
Proof.
  intros population k Hk. split.
  - rewrite length_take. lia.
  - apply submseteq_take.
Qed.

Section AgentFacts.
Context `{Torch}.

Lemma init_agent_buffer state_size action_size seed :
  agent_buffer (DQNAgent.init state_size action_size seed).
Proof. split; reflexivity. Qed.



(** [sample] returns the batch drawn when the stored experiences have
    states of one length and next states of one length. *)
Lemma sample_stacks random_sample (rb : ReplayBuffer.t) (n m : nat) :
  valid_sampler random_sample ->
  (0 < ReplayBuffer.batch_size rb <= ReplayBuffer.len rb)%nat ->
  Forall (fun e => length (state e) = n /\ length (next_state e) = m)
         (items (ReplayBuffer.memory rb)) ->
  ReplayBuffer.sample random_sample rb
  = Ok (random_sample (items (ReplayBuffer.memory rb))
                      (ReplayBuffer.batch_size rb)).
Proof.
  intros Hvalid [Hpos Hle] Hall. unfold ReplayBuffer.sample.
  rewrite decide_True by done. cbv zeta.
  destruct (Hvalid (items (ReplayBuffer.memory rb))
                   (ReplayBuffer.batch_size rb) Hle) as [Hlen Hsub].
  set (batch := random_sample _ _) in *.
  assert (Hbatch : Forall (fun e => length (state e) = n /\
                                    length (next_state e) = m) batch).
  { rewrite Forall_forall in Hall. apply Forall_forall. intros e He.
    apply Hall. by eapply elem_of_submseteq. }
  assert (Hne : batch <> []).
  { intros Heq. rewrite Heq in Hlen. simpl in Hlen. lia. }
  rewrite (np_vstack_same (state <$> batch) n).
  - rewrite bind_Ok_l. rewrite (np_vstack_same (next_state <$> batch) m).
    + by rewrite bind_Ok_l.
    + by destruct batch.
    + apply Forall_fmap. eapply Forall_impl; [exact Hbatch|]. by intros e [_ ?].
  - by destruct batch.
  - apply Forall_fmap. eapply Forall_impl; [exact Hbatch|]. by intros e [? _].
Qed.



(** C3 (evaluation). Every agent is built with a buffer of capacity
    10000, whatever its arguments, while [BUFFER_SIZE] is 100000: the
    buffer never holds more than 10000 experiences. *)
Theorem agent_buffer_capacity (state_size action_size : nat) (seed : Z)
    (es : list Experience) :
  let agent := DQNAgent.init state_size action_size seed in
  maxlen (ReplayBuffer.memory (DQNAgent.memory agent)) = 10000%N /\
  BUFFER_SIZE = 100000%N /\
  maxlen (ReplayBuffer.memory (DQNAgent.memory agent)) <> BUFFER_SIZE /\
  (N.of_nat (ReplayBuffer.len (add_all (DQNAgent.memory agent) es)) <= 10000)%N.
Proof.
  intros agent. split; [done|]. split; [done|]. split; [done|].
  unfold agent, ReplayBuffer.len. simpl DQNAgent.memory.
  rewrite add_all_items, length_drop. lia.
Qed.

(** C4, as amended. On a state vector of the agent's state size: with
    [eps = 0] and a uniform draw above 0, [act] returns the argmax of the
    local network's action values; with [eps = 1] every draw (below 1)
    takes the random branch, and [act] returns the action at the index
    [random.choice] draws uniformly below the number of actions, which is
    that index: every action of the action space is returned for exactly
    one value of the uniform index draw. *)
Theorem act_epsilon_greedy (self : DQNAgent.t) (s : list Q) (u : Q)
    (randbelow : nat -> nat) :
  length s = DQNAgent.state_size self ->
  ((0 < u)%Q ->
     DQNAgent.act self s 0 u randbelow
     = np_argmax (forward (DQNAgent.qnetwork_local self) s)) /\
  ((u < 1)%Q -> valid_randbelow randbelow ->
   (0 < DQNAgent.action_size self)%nat ->
     DQNAgent.act self s 1 u randbelow
       = Ok (randbelow (DQNAgent.action_size self)) /\
     (randbelow (DQNAgent.action_size self) < DQNAgent.action_size self)%nat /\
     forall a, (a < DQNAgent.action_size self)%nat ->
       (DQNAgent.act self s 1 u randbelow = Ok a <->
        randbelow (DQNAgent.action_size self) = a)).
Proof.
  intros Hs. unfold DQNAgent.act, torch_check.
  rewrite (proj2 (Nat.eqb_eq _ _) Hs), bind_Ok_l. split.
  - intros Hu. destruct (Qle_bool u 0) eqn:E; [|done].
    apply Qle_bool_iff in E. exfalso. by apply (Qlt_not_le 0 u).
  - intros Hu Hvalid Hpos.
    assert (Hdraw := Hvalid _ Hpos).
    assert (Hact : (if negb (Qle_bool u 1)
                    then np_argmax (forward (DQNAgent.qnetwork_local self) s)
                    else random_choice randbelow
                           (np_arange (DQNAgent.action_size self)))
                   = Ok (randbelow (DQNAgent.action_size self))).
    { destruct (Qle_bool u 1) eqn:E; simpl.
      - unfold random_choice, np_arange.
        destruct (seq 0 (DQNAgent.action_size self)) as [|x l] eqn:Eseq.
        + apply (f_equal length) in Eseq. rewrite length_seq in Eseq.
          simpl in Eseq. lia.
        + rewrite <- Eseq, length_seq. unfold list_getitem.
          by rewrite lookup_seq_lt.
      - exfalso. apply Qlt_le_weak, Qle_bool_iff in Hu. congruence. }
    rewrite Hact. split; [done|]. split; [done|].
    intros a Ha. split; [by intros [= <-] | by intros <-].
Qed.

End AgentFacts.



Lemma act_epsilon_greedy_witness :
  @DQNAgent.act two_actions (@DQNAgent.init two_actions 10 2 0)
     state10 0 (1 # 2) (fun _ => 0%nat)
  = Ok 1%nat /\
  @DQNAgent.act two_actions (@DQNAgent.init two_actions 10 2 0)
     state10 1 (1 # 2) (fun _ => 0%nat)
  = Ok 0%nat.
Proof.
  destruct (@act_epsilon_greedy two_actions
              (@DQNAgent.init two_actions 10 2 0) state10 (1 # 2)
              (fun _ => 0%nat) eq_refl)
    as [Hgreedy Hrandom].
  split.
  - rewrite Hgreedy; reflexivity.
  - destruct Hrandom as (E & _ & _);
      [reflexivity | intros n Hn; exact Hn | simpl; lia | exact E].
Defined.

(** C4, as stated, fails: with [eps = 0] the draw [0.0] does not pass the
    test [random.random() > eps], so the action is the one
    [random.choice] picks (here action 0) and not the argmax (action 1). *)
Lemma act_eps0_draw0_explores :
  @DQNAgent.act two_actions (@DQNAgent.init two_actions 10 2 0)
     state10 0 0 (fun _ => 0%nat)
    = Ok 0%nat /\
  np_argmax (@forward two_actions
               (@DQNAgent.qnetwork_local two_actions
                  (@DQNAgent.init two_actions 10 2 0)) state10)
    = Ok 1%nat /\
  @DQNAgent.act two_actions (@DQNAgent.init two_actions 10 2 0)
     state10 0 0 (fun _ => 0%nat)
    <> np_argmax (@forward two_actions
                    (@DQNAgent.qnetwork_local two_actions
                       (@DQNAgent.init two_actions 10 2 0)) state10).
Proof. split; [reflexivity|]. split; [reflexivity|]. discriminate. Qed.


(** * Further properties *)

(** ** Round-robin ids *)

Lemma user_key_Some j k :
  user_key j = Some k <->
  exists v, j !! "user" = Some v /\ py_hash v = Ok k.
Proof.
  unfold user_key. destruct (j !! "user") as [v|].
  - destruct (py_hash v) as [k'|e] eqn:E; split.
    + intros [= <-]. eauto.
    + intros (v' & [= <-] & E'). congruence.
    + discriminate.
    + intros (v' & [= <-] & E'). congruence.
  - split; [discriminate|]. intros (v & Hv & _). discriminate.
Qed.

Lemma count_user_cons k j jobs :
  count_user k (j :: jobs)
  = ((if decide (user_key j = Some k) then 1 else 0) + count_user k jobs)%nat.
Proof.
  unfold count_user. rewrite filter_cons. case_decide; simpl; lia.
Qed.

Lemma count_user_app k l1 l2 :
  count_user k (l1 ++ l2) = (count_user k l1 + count_user k l2)%nat.
Proof. unfold count_user. by rewrite filter_app, length_app. Qed.

Lemma rrid_loop_spec jobs : forall seen d jobs',
  counts_seen seen d -> rrid_loop jobs d = Ok jobs' ->
  length jobs' = length jobs /\
  forall i j, jobs !! i = Some j ->
    exists k, user_key j = Some k /\
      jobs' !! i
      = Some (<["user_rrid" :=
                  VInt (Z.of_nat (count_user k (seen ++ take i jobs)))]> j).
Proof.
  induction jobs as [|j0 rest IH]; intros seen d jobs' Hd E; simpl in E.
  - injection E as <-. split; [done|]. intros i j Hi. discriminate.
  - apply bind_Ok in E as (v & Ev & E). apply getitem_Ok in Ev.
    apply bind_Ok in E as (k & Ek & E). cbv zeta in E.
    apply bind_Ok in E as (rest' & Erest & E). injection E as <-.
    assert (Hk : user_key j0 = Some k) by (apply user_key_Some; eauto).
    assert (Hrrid : match d !! k with None => 0 | Some r => r end
                    = Z.of_nat (count_user k seen)).
    { rewrite (Hd k). case_decide as H0; [by rewrite H0 | done]. }
    apply (IH (seen ++ [j0])) in Erest as [Hlen Hrest].
    + split; [simpl; by rewrite Hlen|].
      intros [|i] j Hi; simpl in Hi.
      * injection Hi as <-. exists k. split; [done|]. simpl.
        by rewrite Hrrid, app_nil_r.
      * destruct (Hrest i j Hi) as (k' & Hk' & Hj'). exists k'.
        split; [done|]. simpl. by rewrite Hj', <- app_assoc.
    + intros k'. rewrite count_user_app, count_user_cons. unfold count_user at 3.
      simpl. rewrite Nat.add_0_r.
      destruct (decide (k' = k)) as [-> | Hne].
      * rewrite (decide_True (P := user_key j0 = Some k)) by done.
        rewrite decide_False by lia.
        rewrite (Hd k). case_decide as H0.
        -- rewrite lookup_insert_eq, H0. done.
        -- rewrite lookup_insert_eq. f_equal. lia.
      * rewrite (decide_False (P := user_key j0 = Some k')) by congruence.
        destruct (d !! k); rewrite lookup_insert_ne by done;
          rewrite (Hd k'); repeat case_decide;
          first [done | lia | (f_equal; lia)].
Qed.

Lemma rrid_loop_total jobs : forall d,
  Forall (fun j => is_Some (user_key j)) jobs ->
  exists jobs', rrid_loop jobs d = Ok jobs'.
Proof.
  induction jobs as [|j rest IH]; intros d Hall; simpl; [eauto|].
  apply Forall_cons in Hall as [[k Hk] Hrest].
  apply user_key_Some in Hk as (v & Hv & Hh).
  unfold getitem. rewrite Hv, bind_Ok_l, Hh, bind_Ok_l. cbv zeta.
  edestruct IH as [rest' ->]; [exact Hrest|]. rewrite bind_Ok_l. eauto.
Qed.

Lemma counts_seen_empty : counts_seen [] ∅.
Proof. intros k. by rewrite lookup_empty. Qed.

Lemma count_user_take_S k (jobs : list job) i j :
  jobs !! i = Some j ->
  count_user k (take (S i) jobs)
  = (count_user k (take i jobs)
     + (if decide (user_key j = Some k) then 1 else 0))%nat.
Proof.
  intros Hi. rewrite (take_S_r _ _ _ Hi), count_user_app, count_user_cons.
  change (count_user k []) with 0%nat. case_decide; lia.
Qed.

Lemma count_user_take_mono k (jobs : list job) i i' :
  (i <= i')%nat -> (count_user k (take i jobs) <= count_user k (take i' jobs))%nat.
Proof.
  induction 1 as [|i' Hle IH]; [done|].
  destruct (jobs !! i') as [j|] eqn:Ej.
  - rewrite (count_user_take_S _ _ _ _ Ej). lia.
  - apply lookup_ge_None in Ej. rewrite (take_ge jobs (S i')) by lia.
    by rewrite (take_ge jobs i') in IH by lia.
Qed.

Lemma user_key_insert_rrid j v :
  user_key (<["user_rrid" := v]> j) = user_key j.
Proof. unfold user_key. by rewrite lookup_insert_ne. Qed.

(** X1. On jobs that each have a hashable [user], the call returns and
    leaves a list of the same length in which job [i] is the input job [i]
    with [user_rrid] set to the number of earlier jobs of the same user;
    nothing else in the job changes. *)
Theorem add_user_round_robin_id_counts (jobs : list job) :
  Forall (fun j => is_Some (user_key j)) jobs ->
  exists jobs',
    add_user_round_robin_id jobs = Ok jobs' /\
    length jobs' = length jobs /\
    forall i j, jobs !! i = Some j ->
      exists k, user_key j = Some k /\
        jobs' !! i
        = Some (<["user_rrid" :=
                    VInt (Z.of_nat (count_user k (take i jobs)))]> j).
Proof.
  intros Hall. destruct (rrid_loop_total jobs ∅ Hall) as [jobs' E].
  exists jobs'. split; [exact E|].
  apply (rrid_loop_spec jobs [] ∅ jobs' counts_seen_empty) in E. exact E.
Qed.

Lemma add_user_round_robin_id_counts_witness :
  exists jobs',
    add_user_round_robin_id
      [job_of "u1" "g" 1; job_of "u2" "g" 1; job_of "u1" "g" 1] = Ok jobs' /\
    jobs' !! 2%nat = Some (<["user_rrid" := VInt 1]> (job_of "u1" "g" 1)).
Proof.
  destruct (add_user_round_robin_id_counts
              [job_of "u1" "g" 1; job_of "u2" "g" 1; job_of "u1" "g" 1])
    as (jobs' & E & _ & Hjobs).
  - repeat constructor; by eexists.
  - exists jobs'. split; [exact E|].
    destruct (Hjobs 2%nat (job_of "u1" "g" 1) eq_refl) as (k & Hk & ->).
    injection Hk as <-. reflexivity.
Defined.

(** X2. Jobs of the same user get strictly increasing [user_rrid] in list
    order, so no two jobs of one user share a [user_rrid]. *)
Theorem add_user_round_robin_id_increasing (jobs jobs' : list job)
    (i1 i2 : nat) (j1 j2 : job) :
  add_user_round_robin_id jobs = Ok jobs' ->
  (i1 < i2)%nat -> jobs' !! i1 = Some j1 -> jobs' !! i2 = Some j2 ->
  user_key j1 = user_key j2 ->
  exists r1 r2,
    j1 !! "user_rrid" = Some (VInt r1) /\ j2 !! "user_rrid" = Some (VInt r2) /\
    0 <= r1 < r2.
Proof.
  intros E Hlt H1 H2 Hsame.
  apply (rrid_loop_spec jobs [] ∅ jobs' counts_seen_empty) in E as [Hlen Hspec].
  destruct (lookup_lt_is_Some_2 jobs i1) as [a Ha].
  { rewrite <- Hlen. eauto using lookup_lt_Some. }
  destruct (lookup_lt_is_Some_2 jobs i2) as [b Hb].
  { rewrite <- Hlen. eauto using lookup_lt_Some. }
  destruct (Hspec i1 a Ha) as (k1 & Hk1 & E1).
  destruct (Hspec i2 b Hb) as (k2 & Hk2 & E2).
  simpl in E1, E2. rewrite H1 in E1. rewrite H2 in E2.
  injection E1 as ->. injection E2 as ->.
  rewrite !user_key_insert_rrid, Hk1, Hk2 in Hsame. injection Hsame as <-.
  eexists _, _. rewrite !lookup_insert_eq. split; [done|]. split; [done|].
  pose proof (count_user_take_S k1 jobs i1 a Ha) as HS.
  rewrite decide_True in HS by done.
  pose proof (count_user_take_mono k1 jobs (S i1) i2 ltac:(lia)). lia.
Qed.

Lemma add_user_round_robin_id_increasing_witness :
  exists r1 r2,
    (<["user_rrid" := VInt 0]> (job_of "u1" "g" 1) : job) !! "user_rrid"
      = Some (VInt r1) /\
    (<["user_rrid" := VInt 1]> (job_of "u1" "g" 1) : job) !! "user_rrid"
      = Some (VInt r2) /\
    0 <= r1 < r2.
Proof.
  apply (add_user_round_robin_id_increasing
           [job_of "u1" "g" 1; job_of "u2" "g" 1; job_of "u1" "g" 1]
           [<["user_rrid" := VInt 0]> (job_of "u1" "g" 1);
            <["user_rrid" := VInt 0]> (job_of "u2" "g" 1);
            <["user_rrid" := VInt 1]> (job_of "u1" "g" 1)] 0%nat 2%nat);
    first [reflexivity | lia].
Defined.

Lemma rrid_loop_missing_user pre : forall d j rest,
  Forall (fun j => is_Some (user_key j)) pre -> j !! "user" = None ->
  rrid_loop (pre ++ j :: rest) d = Raise KeyError.
Proof.
  induction pre as [|j0 pre IH]; intros d j rest Hall Hj; simpl.
  - unfold getitem. by rewrite Hj.
  - apply Forall_cons in Hall as [[k Hk] Hpre].
    apply user_key_Some in Hk as (v & Hv & Hh).
    unfold getitem at 1. rewrite Hv, bind_Ok_l, Hh, bind_Ok_l. cbv zeta.
    by rewrite IH.
Qed.

(** X3. When the first job without a hashable user lacks the key [user],
    the call raises KeyError. *)
Theorem add_user_round_robin_id_missing_user (pre rest : list job) (j : job) :
  Forall (fun j => is_Some (user_key j)) pre -> j !! "user" = None ->
  add_user_round_robin_id (pre ++ j :: rest) = Raise KeyError.
Proof. intros Hall Hj. by apply rrid_loop_missing_user. Qed.

Lemma add_user_round_robin_id_missing_user_witness :
  add_user_round_robin_id ([job_of "u1" "g" 1] ++ big_job :: []) = Raise KeyError.
Proof.
  apply add_user_round_robin_id_missing_user.
  - repeat constructor; by eexists.
  - reflexivity.
Defined.

(** ** Resource guard, further *)

Lemma prune_field_within key what limit j log :
  within key limit j -> prune_field key what limit (j, log) = Ok (j, log).
Proof.
  intros Hw. unfold prune_field. destruct (j !! key) as [v|] eqn:Ev; [|done].
  destruct (Hw v Ev) as (n & -> & Hle). simpl.
  by rewrite Hle.
Qed.

Lemma prune_loop_within gpu_limit cpu_limit jobs : forall log,
  Forall (fun j => within "num_gpu" gpu_limit j /\
                   within "num_cpu" cpu_limit j) jobs ->
  prune_loop gpu_limit cpu_limit jobs log = Ok (jobs, log).
Proof.
  induction jobs as [|j rest IH]; intros log Hall; simpl; [done|].
  apply Forall_cons in Hall as [[Hg Hc] Hrest]. unfold prune_job.
  rewrite (prune_field_within _ _ _ _ _ Hg), bind_Ok_l.
  rewrite (prune_field_within _ _ _ _ _ Hc), bind_Ok_l.
  by rewrite (IH log Hrest), bind_Ok_l.
Qed.

(** X4. Pruning is idempotent: a second pass over the pruned list, with
    the same limits, returns the same list and emits no diagnostic. *)
Theorem large_job_pruning_idempotent (jobs jobs' : list job)
    (gpu_limit cpu_limit : Z) (log : list diag) :
  large_job_pruning (Some jobs) gpu_limit cpu_limit = Ok (jobs', log) ->
  large_job_pruning (Some jobs') gpu_limit cpu_limit = Ok (jobs', []).
Proof.
  intros E. apply large_job_pruning_Ok in E as (_ & Hall & _).
  by apply prune_loop_within.
Qed.

Lemma large_job_pruning_idempotent_witness :
  large_job_pruning (Some [<["num_gpu" := VInt 100]> big_job]) 100 9600
  = Ok ([<["num_gpu" := VInt 100]> big_job], []).
Proof.
  apply (large_job_pruning_idempotent [big_job] _ 100 9600
           [Diag (JobRepr (VStr "j1") (VInt 100) (VInt 600) (VInt 5))
                 "GPU" 150 100]).
  reflexivity.
Defined.

Lemma repr_job_missing_id (d : job) :
  d !! "job_id" = None -> _repr_job_concise d = Raise KeyError.
Proof. intros Hid. unfold _repr_job_concise, getitem. by rewrite Hid. Qed.

Lemma prune_loop_missing_job_id gpu_limit cpu_limit pre : forall log j rest n,
  Forall job_record pre ->
  j !! "num_gpu" = Some (VNum n) -> num_gt n (NInt gpu_limit) = true ->
  j !! "job_id" = None ->
  prune_loop gpu_limit cpu_limit (pre ++ j :: rest) log = Raise KeyError.
Proof.
  induction pre as [|j0 pre IH]; intros log j rest n Hall Hg Hgt Hid; simpl.
  - unfold prune_job, prune_field. rewrite Hg. simpl.
    rewrite Hgt. cbv beta iota zeta. rewrite ?bind_Ok_l. cbv beta iota zeta.
    rewrite repr_job_missing_id; [done|]. by rewrite lookup_insert_ne.
  - apply Forall_cons in Hall as [Hj0 Hpre]. unfold prune_job.
    destruct (prune_field_record "num_gpu" "GPU" gpu_limit j0 log Hj0)
      as (log1 & ->); [auto|]. rewrite bind_Ok_l.
    destruct (prune_field_record "num_cpu" "CPU" cpu_limit _ log1
                (clamp_field_record "num_gpu" gpu_limit j0 Hj0))
      as (log2 & ->); [auto|]. rewrite bind_Ok_l.
    by rewrite (IH log2 j rest n Hpre Hg Hgt Hid).
Qed.

(** X5. The membership tests guard only the resource keys: when the first
    job that is not a full record exceeds the GPU limit and has no
    [job_id], building the diagnostic raises KeyError and the call
    returns no list. *)
Theorem large_job_pruning_missing_job_id (pre rest : list job) (j : job)
    (n : pynum) (gpu_limit cpu_limit : Z) :
  Forall job_record pre ->
  j !! "num_gpu" = Some (VNum n) -> num_gt n (NInt gpu_limit) = true ->
  j !! "job_id" = None ->
  large_job_pruning (Some (pre ++ j :: rest)) gpu_limit cpu_limit
  = Raise KeyError.
Proof. intros. by eapply prune_loop_missing_job_id. Qed.

Lemma large_job_pruning_missing_job_id_witness :
  large_job_pruning
    (Some ([big_job] ++ ({[ "num_gpu" := VInt 150 ]} : job) :: [])) 100 9600
  = Raise KeyError.
Proof.
  apply (large_job_pruning_missing_job_id [big_job] [] _ (NInt 150)).
  - constructor; [exact big_job_record | constructor].
  - reflexivity.
  - reflexivity.
  - reflexivity.
Defined.

(** ** Lottery scheduling, further *)

Lemma running_sums_length base ts : length (running_sums base ts) = length ts.
Proof. revert base. induction ts as [|t ts IH]; intros base; simpl; auto. Qed.

Lemma running_sums_lookup ts : forall base i,
  (i < length ts)%nat ->
  running_sums base ts !! i = Some (base + sum_tickets (take (S i) ts)).
Proof.
  induction ts as [|t ts IH]; intros base i Hi; simpl in *; [lia|].
  destruct i as [|i]; simpl.
  - f_equal. unfold sum_tickets. simpl. lia.
  - rewrite IH by lia. f_equal. unfold sum_tickets. simpl. lia.
Qed.

Section LotteryDraws.
Context `{PyFloat}.

Lemma lottery_assign_sums jobs : forall st st',
  lottery_assign jobs st = Ok st' ->
  exists ts,
    Forall2 (fun j t => assign_tickets j 1 = Ok t) jobs ts /\
    job_list st' = job_list st ++ with_tickets jobs ts /\
    cumulative_tickets st'
    = cumulative_tickets st ++ running_sums (total_tickets st) ts /\
    total_tickets st' = total_tickets st + sum_tickets ts.
Proof.
  induction jobs as [|j rest IH]; intros st st' E; simpl in E.
  - injection E as <-. exists []. unfold with_tickets. simpl.
    rewrite !app_nil_r. split; [constructor|]. repeat split; lia.
  - apply bind_Ok in E as (t & Et & E). cbv zeta in E.
    apply IH in E as (ts & Hts & Hjobs & Hcum & Htot). simpl in *.
    exists (t :: ts). split; [by constructor|].
    rewrite Hjobs, Hcum, Htot, <- !app_assoc. simpl.
    repeat split. unfold sum_tickets. simpl. lia.
Qed.

Lemma with_tickets_lookup jobs ts w jw :
  with_tickets jobs ts !! w = Some jw ->
  exists j t, jobs !! w = Some j /\ ts !! w = Some t /\
              jw = <["tickets" := VInt t]> j.
Proof.
  unfold with_tickets. rewrite lookup_zip_with_Some.
  intros (j & t & -> & Hj & Ht). eauto.
Qed.

Lemma sum_tickets_take_pos jobs ts w :
  Forall2 (fun j t => assign_tickets j 1 = Ok t) jobs ts ->
  0 <= sum_tickets (take w ts).
Proof.
  intros Hts. revert w. induction Hts as [|j t jobs ts Et _ IH]; intros w.
  - rewrite take_nil. done.
  - destruct w as [|w]; simpl; [done|].
    apply assign_tickets_ge_1 in Et. specialize (IH w).
    unfold sum_tickets in *. simpl. lia.
Qed.

(** X6. After the first loop the cumulative array is the running sum of
    the tickets, so a first draw [d] selects the job whose ticket
    interval contains it: the index [w] found has
    [sum(tickets[:w]) < d <= sum(tickets[:w+1])], and the first iteration
    places that job at position 0.  Each job thus owns as many values of
    the first draw as it has tickets. *)
Theorem lottery_first_draw (randint : rand_source) (jobs : list job)
    (st0 : lottery_state) (d : Z) :
  lottery_assign jobs (LState [] [] 0) = Ok st0 ->
  1 <= d <= total_tickets st0 -> randint 0%nat 1 (total_tickets st0) = d ->
  exists ts w st1 jw,
    Forall2 (fun j t => assign_tickets j 1 = Ok t) jobs ts /\
    total_tickets st0 = sum_tickets ts /\
    first_index_ge d (cumulative_tickets st0) = Ok w /\
    sum_tickets (take w ts) < d <= sum_tickets (take (S w) ts) /\
    with_tickets jobs ts !! w = Some jw /\
    lottery_loop randint 1 0 st0 = Ok st1 /\
    job_list st1 !! 0%nat = Some jw.
Proof.
  intros E0 [Hd1 Hd2] Hdraw.
  destruct (lottery_assign_sums jobs _ _ E0) as (ts & Hts & Hjobs & Hcum & Htot).
  simpl in Hjobs, Hcum, Htot.
  assert (Hlen : length ts = length jobs) by (symmetry; by eapply Forall2_length).
  (* the search succeeds: the last entry is the total *)
  assert (Hne : ts <> []).
  { intros ->. unfold sum_tickets in Htot. simpl in Htot. lia. }
  assert (Hlast : cumulative_tickets st0 !! pred (length ts)
                  = Some (total_tickets st0)).
  { rewrite Hcum, running_sums_lookup by (destruct ts; simpl; [done | lia]).
    rewrite Htot. f_equal. rewrite take_ge by (destruct ts; simpl; lia). lia. }
  destruct (list_find (fun cumul => d <= cumul) (cumulative_tickets st0))
    as [[w x]|] eqn:Efind; cycle 1.
  { exfalso. rewrite list_find_None, Forall_lookup in Efind.
    apply (Efind _ _ Hlast). lia. }
  apply list_find_Some in Efind as (Hx & Hdx & Hbefore).
  assert (Hw : (w < length ts)%nat).
  { apply lookup_lt_Some in Hx. by rewrite Hcum, running_sums_length in Hx. }
  rewrite Hcum, running_sums_lookup in Hx by done. injection Hx as <-.
  assert (Hlow : sum_tickets (take w ts) < d).
  { destruct w as [|w]; [rewrite take_0; unfold sum_tickets; simpl; lia|].
    assert (Hprev : cumulative_tickets st0 !! w
                    = Some (0 + sum_tickets (take (S w) ts))).
    { rewrite Hcum. apply running_sums_lookup. lia. }
    specialize (Hbefore w _ Hprev ltac:(lia)). lia. }
  destruct (lookup_lt_is_Some_2 (with_tickets jobs ts) w) as [jw Hjw].
  { unfold with_tickets. rewrite length_zip_with_l_eq; lia. }
  destruct (with_tickets_lookup _ _ _ _ Hjw) as (j & t & Hj & Ht & ->).
  destruct (lookup_lt_is_Some_2 (job_list st0) 0) as [j0 Hj0].
  { rewrite Hjobs. unfold with_tickets. rewrite length_zip_with_l_eq; lia. }
  exists ts, w, (LState (<[w := j0]> (<[0%nat := <["tickets" := VInt t]> j]>
                                       (job_list st0)))
                        (if decide (0%nat = w) then cumulative_tickets st0
                         else sub_range t 0 (w + 1) (cumulative_tickets st0))
                        (total_tickets st0 - t)),
         (<["tickets" := VInt t]> j).
  split; [exact Hts|]. split; [exact Htot|].
  assert (Hfirst : first_index_ge d (cumulative_tickets st0) = Ok w).
  { unfold first_index_ge.
    assert (Efind : list_find (fun cumul => d <= cumul) (cumulative_tickets st0)
                    = Some (w, 0 + sum_tickets (take (S w) ts))).
    { apply list_find_Some. split; [|split; [lia | exact Hbefore]].
      rewrite Hcum. by apply running_sums_lookup. }
    by rewrite Efind. }
  split; [exact Hfirst|]. split; [lia|]. split; [exact Hjw|].
  assert (Hplaced : <[w := j0]> (<[0%nat := <["tickets" := VInt t]> j]>
                                   (job_list st0)) !! 0%nat
                    = Some (<["tickets" := VInt t]> j)).
  { destruct w as [|w].
    - rewrite list_lookup_insert_eq; [|rewrite length_insert;
        eauto using lookup_lt_Some].
      rewrite Hjobs, Hjw in Hj0. by injection Hj0 as <-.
    - rewrite list_lookup_insert_ne by done.
      apply list_lookup_insert_eq. eauto using lookup_lt_Some. }
  split; [|exact Hplaced].
  simpl. destruct (Z.leb_spec (total_tickets st0) 0) as [|_]; [lia|].
  unfold lottery_iter, random_randint.
  destruct (Z.leb_spec 1 (total_tickets st0)) as [_|]; [|lia].
  rewrite bind_Ok_l, Hdraw, Hfirst, bind_Ok_l.
  unfold list_getitem. rewrite Hj0, bind_Ok_l.
  rewrite Hjobs at 1. rewrite Hjw, bind_Ok_l. cbv zeta.
  rewrite Hplaced, bind_Ok_l.
  unfold get_tickets, getitem. rewrite lookup_insert_eq, !bind_Ok_l.
  reflexivity.
Qed.

Lemma lottery_assign_missing pre : forall st j rest,
  Forall finite_dur pre -> j !! "group_gpu_dur" = None ->
  lottery_assign (pre ++ j :: rest) st = Raise KeyError.
Proof.
  induction pre as [|j0 pre IH]; intros st j rest Hall Hj; simpl.
  - unfold assign_tickets, getitem. by rewrite Hj.
  - apply Forall_cons in Hall as [Hj0 Hpre].
    destruct (assign_tickets_numeric j0 Hj0) as (t & -> & _).
    rewrite bind_Ok_l. by apply IH.
Qed.

(** X7. When the first job whose [group_gpu_dur] is not an int or a
    finite float lacks the key, [lottery_sort] raises KeyError in its
    first loop, before any draw: the list is not reordered. *)
Theorem lottery_sort_missing_dur (randint : rand_source)
    (pre rest : list job) (j : job) :
  Forall finite_dur pre -> j !! "group_gpu_dur" = None ->
  lottery_sort randint (pre ++ j :: rest) = Raise KeyError.
Proof.
  intros Hall Hj. unfold lottery_sort.
  by rewrite (lottery_assign_missing pre _ j rest Hall Hj).
Qed.

End LotteryDraws.

Lemma lottery_first_draw_witness :
  exists w, first_index_ge 7 [5; 6; 7] = Ok w /\
            (sum_tickets (take w [5; 1; 1]) < 7)%Z.
Proof.
  destruct (@lottery_first_draw exact_float high_then_low
              [job_of "a" "g" 5; job_of "b" "g" 1; job_of "c" "g" 1]
              (LState [ticketed "a" "g" 5; ticketed "b" "g" 1;
                       ticketed "c" "g" 1] [5; 6; 7] 7) 7)
    as (ts & w & st1 & jw & Hts & _ & Hw & Hint & _).
  - reflexivity.
  - simpl. lia.
  - reflexivity.
  - exists w. split; [exact Hw|].
    assert (ts = [5; 1; 1]) as ->.
    { apply Forall2_cons_inv_l in Hts as (t1 & ts1 & E1 & Hts & ->).
      apply Forall2_cons_inv_l in Hts as (t2 & ts2 & E2 & Hts & ->).
      apply Forall2_cons_inv_l in Hts as (t3 & ts3 & E3 & Hts & ->).
      apply Forall2_nil_inv_l in Hts as ->.
      injection E1 as <-. injection E2 as <-. injection E3 as <-. reflexivity. }
    lia.
Defined.

Lemma lottery_sort_missing_dur_witness :
  @lottery_sort exact_float lowest_ticket ([job_of "a" "g" 1] ++ big_job :: [])
  = Raise KeyError.
Proof.
  apply (@lottery_sort_missing_dur exact_float).
  - repeat constructor. by eexists.
  - reflexivity.
Defined.

(** ** Fair share, further *)

Lemma consumer_key_Some field j k :
  consumer_key field j = Some k <->
  exists v, j !! field = Some v /\ py_hash v = Ok k.
Proof.
  unfold consumer_key. destruct (j !! field) as [v|].
  - destruct (py_hash v) as [k'|e] eqn:E; split.
    + intros [= <-]. eauto.
    + intros (v' & [= <-] & E'). congruence.
    + discriminate.
    + intros (v' & [= <-] & E'). congruence.
  - split; [discriminate|]. intros (v & Hv & _). discriminate.
Qed.

Lemma mapM_res_total {A B} (f : A -> res B) (l : list A) :
  Forall (fun x => exists y, f x = Ok y) l -> exists k, mapM f l = Ok k.
Proof.
  induction 1 as [|x l [y Hy] _ [k Hk]]; simpl; [by eexists|].
  rewrite Hy, bind_Ok_l, Hk, bind_Ok_l. by eexists.
Qed.

Section FairShareTotal.
Context `{PyFloat}.

(** The first loop gives usage 0 to the consumers of the list and keeps
    the entries it finds. *)
Lemma fair_share_init_spec field jobs : forall d,
  Forall (fun j => is_Some (consumer_key field j)) jobs ->
  exists d', fair_share_init field jobs d = Ok d' /\
    forall k, d' !! k =
      match d !! k with
      | Some n => Some n
      | None => if decide (Exists (fun j => consumer_key field j = Some k) jobs)
                then Some (NInt 0) else None
      end.
Proof.
  induction jobs as [|j rest IH]; intros d Hall; simpl.
  - exists d. split; [done|]. intros k. by destruct (d !! k).
  - apply Forall_cons in Hall as [[k0 Hk0] Hrest].
    pose proof Hk0 as Hk0'. apply consumer_key_Some in Hk0' as (v & Hv & Hh).
    unfold getitem. rewrite Hv, bind_Ok_l, Hh, bind_Ok_l.
    edestruct IH as (d' & -> & Hd'); [exact Hrest|].
    exists d'. split; [done|]. intros k. rewrite Hd'.
    destruct (decide (k = k0)) as [-> | Hne].
    + destruct (d !! k0) as [n|] eqn:E0.
      * by rewrite E0.
      * rewrite lookup_insert_eq. rewrite decide_True; [done|].
        by apply Exists_cons_hd.
    + assert (Hsame : (match d !! k0 with
                       | Some _ => d
                       | None => <[k0 := NInt 0]> d
                       end) !! k = d !! k).
      { destruct (d !! k0); [done|]. by rewrite lookup_insert_ne. }
      rewrite Hsame. destruct (d !! k); [done|].
      repeat case_decide; try done.
      * exfalso. apply H1. by apply Exists_cons_tl.
      * exfalso. apply Exists_cons in H1 as [Hj | Hr]; [congruence | done].
Qed.

Lemma fair_share_update_total field jobs : forall d,
  Forall (fun j => (exists k, consumer_key field j = Some k /\ is_Some (d !! k))
                   /\ numeric_dur j) jobs ->
  exists d', fair_share_update field jobs d = Ok d'.
Proof.
  induction jobs as [|j rest IH]; intros d Hall; simpl; [eauto|].
  apply Forall_cons in Hall as [[(k & Hk & [used Hused]) [n Hn]] Hrest].
  apply consumer_key_Some in Hk as (v & Hv & Hh).
  unfold getitem. rewrite Hv, bind_Ok_l, Hh, bind_Ok_l, Hused, Hn, bind_Ok_l.
  assert (exists used', py_add used (VNum n) = Ok used') as [used' ->].
  { destruct used, n; simpl; eauto. }
  rewrite bind_Ok_l. apply IH.
  eapply Forall_impl; [exact Hrest|].
  intros j' [(k' & Hk' & Hsome) Hnum]. split; [|done].
  exists k'. split; [done|]. rewrite lookup_insert.
  by case_decide.
Qed.

Lemma fair_share_update_ints field jobs : forall d,
  all_ints d ->
  Forall (fun j => (exists k, consumer_key field j = Some k /\ is_Some (d !! k))
                   /\ int_dur j) jobs ->
  exists d', fair_share_update field jobs d = Ok d' /\
    forall k, d' !! k
              = (fun n => NInt (val_int n + usage_of field k jobs)) <$> d !! k.
Proof.
  induction jobs as [|j rest IH]; intros d Hints Hall; simpl.
  - exists d. split; [done|]. intros k.
    destruct (d !! k) as [n|] eqn:E; simpl; [|done].
    destruct (Hints k n E) as [z ->]. simpl. do 2 f_equal. lia.
  - apply Forall_cons in Hall as [[(k0 & Hk0 & [used Hused]) [b Hb]] Hrest].
    pose proof Hk0 as Hk0'. apply consumer_key_Some in Hk0' as (v & Hv & Hh).
    unfold getitem. rewrite Hv, bind_Ok_l, Hh, bind_Ok_l, Hused, Hb, bind_Ok_l.
    destruct (Hints k0 used Hused) as [z ->]. simpl. rewrite ?bind_Ok_l.
    edestruct (IH (<[k0 := NInt (z + b)]> d)) as (d' & -> & Hd').
    { apply map_Forall_insert_2; [by eexists | done]. }
    { eapply Forall_impl; [exact Hrest|].
      intros j' [(k' & Hk' & Hsome) Hnum]. split; [|done].
      exists k'. split; [done|]. rewrite lookup_insert. by case_decide. }
    exists d'. split; [done|]. intros k. rewrite Hd'.
    assert (Hdur : dur_of j = b) by (unfold dur_of; by rewrite Hb).
    destruct (decide (k = k0)) as [-> | Hne].
    + rewrite lookup_insert_eq, Hused. simpl.
      rewrite decide_True by done. do 2 f_equal. lia.
    + rewrite lookup_insert_ne by done.
      rewrite (decide_False (P := consumer_key field j = Some k)) by congruence.
      done.
Qed.

Lemma fair_share_run_total field jobs :
  Forall (fun j => is_Some (consumer_key field j) /\ numeric_dur j) jobs ->
  exists used, fair_share_run field jobs = Ok (jobs, used).
Proof.
  intros Hall. unfold fair_share_run.
  destruct (fair_share_init_spec field jobs ∅) as (d & Ed & Hd).
  { eapply Forall_impl; [exact Hall|]. by intros j [? _]. }
  rewrite Ed, bind_Ok_l.
  assert (Hpresent : forall j k, j ∈ jobs -> consumer_key field j = Some k ->
                                 d !! k = Some (NInt 0)).
  { intros j k Hj Hk. rewrite Hd, lookup_empty, decide_True; [done|].
    apply Exists_exists. eauto. }
  destruct (mapM_res_total (fair_share_key field d) jobs) as [keys Ekeys].
  { rewrite Forall_forall in Hall. apply Forall_forall. intros j Hj.
    destruct (Hall j Hj) as [[k Hk] _].
    pose proof (Hpresent j k Hj Hk) as Hdk.
    apply consumer_key_Some in Hk as (v & Hv & Hh).
    exists (NInt 0). unfold fair_share_key, getitem.
    by rewrite Hv, bind_Ok_l, Hh, bind_Ok_l, Hdk. }
  rewrite Ekeys, bind_Ok_l. cbv zeta.
  assert (Hsorted : (stable_sort (zip keys jobs)).*2 = jobs).
  { assert (E : fair_share_run field jobs
                = gpu_time_used' ← fair_share_update field
                                      (stable_sort (zip keys jobs)).*2 d;
                  Ok ((stable_sort (zip keys jobs)).*2, gpu_time_used')).
    { unfold fair_share_run. by rewrite Ed, bind_Ok_l, Ekeys, bind_Ok_l. }
    apply mapM_res_Ok in Ekeys.
    assert (Hz : all_zero d).
    { intros k n Hk. rewrite Hd, lookup_empty in Hk.
      case_decide; [|discriminate]. by injection Hk as <-. }
    assert (Hkeys : Forall (fun n => n = NInt 0) keys).
    { apply Forall_lookup. intros i n Hi.
      destruct (Forall2_lookup_r _ _ _ _ _ Ekeys Hi) as (j & _ & E').
      by eapply fair_share_key_zero. }
    rewrite stable_sort_zero_keys.
    - apply snd_zip. apply Forall2_length in Ekeys. lia.
    - clear -Hkeys. revert jobs. induction Hkeys as [|n keys -> _ IH];
        intros [|j jobs]; simpl; constructor; auto. }
  rewrite Hsorted.
  destruct (fair_share_update_total field jobs d) as [d' ->]; [|eauto].
  rewrite Forall_forall in Hall. apply Forall_forall. intros j Hj.
  destruct (Hall j Hj) as [[k Hk] Hnum]. split; [|done].
  exists k. split; [done|]. by rewrite (Hpresent j k Hj Hk).
Qed.


(** X9. What the last loop computes before the dict is dropped: with int
    durations, the usage of every consumer of the list is the sum of the
    [group_gpu_dur] of its jobs, and no other consumer has an entry. *)
Theorem fair_share_accounting (field : string) (jobs : list job) :
  Forall (fun j => is_Some (consumer_key field j) /\ int_dur j) jobs ->
  exists used,
    fair_share_run field jobs = Ok (jobs, used) /\
    forall k, used !! k =
      if decide (Exists (fun j => consumer_key field j = Some k) jobs)
      then Some (NInt (usage_of field k jobs)) else None.
Proof.
  intros Hall.
  destruct (fair_share_run_total field jobs) as [used Erun].
  { eapply Forall_impl; [exact Hall|]. intros j [Hk [z Hz]].
    split; [done|]. by exists (NInt z). }
  exists used. split; [exact Erun|].
  unfold fair_share_run in Erun.
  destruct (fair_share_init_spec field jobs ∅) as (d & Ed & Hd).
  { eapply Forall_impl; [exact Hall|]. by intros j [? _]. }
  rewrite Ed, bind_Ok_l in Erun.
  apply bind_Ok in Erun as (keys & Ekeys & Erun). cbv zeta in Erun.
  apply bind_Ok in Erun as (used' & Eupd & Erun).
  injection Erun as Hsorted <-. rewrite Hsorted in Eupd.
  destruct (fair_share_update_ints field jobs d) as (d' & Ed' & Hd').
  - intros k n Hk. rewrite Hd, lookup_empty in Hk.
    case_decide; [|discriminate]. injection Hk as <-. by eexists.
  - rewrite Forall_forall in Hall. apply Forall_forall. intros j Hj.
    destruct (Hall j Hj) as [[k Hk] Hint]. split; [|done].
    exists k. split; [done|]. rewrite Hd, lookup_empty, decide_True; [done|].
    apply Exists_exists. eauto.
  - rewrite Ed' in Eupd. injection Eupd as <-. intros k.
    rewrite Hd', Hd, lookup_empty. by case_decide.
Qed.

End FairShareTotal.


Lemma fair_share_accounting_witness :
  exists used,
    @fair_share_run exact_float "group"
      [job_of "a" "g1" 10; job_of "b" "g2" 1; job_of "c" "g1" 5]
    = Ok ([job_of "a" "g1" 10; job_of "b" "g2" 1; job_of "c" "g1" 5], used) /\
    used !! key_of_str "g1" = Some (NInt 15).
Proof.
  destruct (@fair_share_accounting exact_float "group"
              [job_of "a" "g1" 10; job_of "b" "g2" 1; job_of "c" "g1" 5])
    as (used & E & Hused).
  - repeat constructor; by eexists.
  - exists used. split; [exact E|]. rewrite Hused.
    rewrite decide_True; [reflexivity|]. by apply Exists_cons_hd.
Defined.

(** ** Job record builder, further *)

(** Membership of a string in a literal list, possibly from membership in
    another literal list. *)
Ltac str_in :=
  repeat match goal with
         | Hin : _ ∈ _ :: _ |- _ => apply elem_of_cons in Hin as [-> | Hin]
         | Hin : _ ∈ [] |- _ => by apply elem_of_nil in Hin
         end;
  repeat first [apply list_elem_of_here | apply list_elem_of_further].

Lemma foldl_delete_None (cols : list string) : forall (d : job) col,
  d !! col = None -> foldl (fun d c => delete c d) d cols !! col = None.
Proof.
  induction cols as [|c cols IH]; intros d col Hd; simpl; [done|].
  apply IH. rewrite lookup_delete. by case_decide.
Qed.

Lemma foldl_delete_removed (cols : list string) : forall (d : job) col,
  col ∈ cols -> foldl (fun d c => delete c d) d cols !! col = None.
Proof.
  induction cols as [|c cols IH]; intros d col Hin; simpl.
  - by apply elem_of_nil in Hin.
  - destruct (decide (col = c)) as [-> | Hne].
    + apply foldl_delete_None. apply lookup_delete_eq.
    + apply IH. apply elem_of_cons in Hin as [? | ?]; done.
Qed.

Section AddJobMore.
Context `{PyFloat}.

Lemma default_field_missing key d d' :
  default_field key d = Ok d' -> missing key d ->
  d' = <[key := VInt (if bool_decide (key ∈ percent_keys) then 0 else 1)]> d.
Proof.
  unfold default_field, missing. intros E [Hm | Hm]; rewrite Hm in E;
    by injection E as <-.
Qed.

Lemma convert_row_missing job_dict d0 key :
  convert_row job_dict = Ok d0 -> key ∉ dur_keys ->
  missing key job_dict -> missing key d0.
Proof.
  intros E Hkey Hm. pose proof (convert_row_lookup job_dict d0 key E) as Hrow.
  destruct Hm as [Hm | Hm]; rewrite Hm in Hrow.
  - by left.
  - right. destruct Hrow as (v' & Hc & ->). f_equal.
    unfold convert_entry in Hc. simpl in Hc.
    rewrite bool_decide_false in Hc by done. by injection Hc as <-.
Qed.

(** The stages of [_add_job], when it returns. *)
Lemma add_job_stages job_list job_dict describe_dict result :
  _add_job job_list job_dict describe_dict = Ok result ->
  exists d0 z1 z2 z3 z4 d5 d6,
    convert_row job_dict = Ok d0 /\
    (missing "num_cpu" d0 -> z1 = 0) /\ (missing "num_gpu" d0 -> z2 = 0) /\
    (missing "submit_time" d0 -> z3 = 1) /\ (missing "num_inst" d0 -> z4 = 1) /\
    add_scheduling_entries
      (<["num_inst" := VInt z4]> (<["submit_time" := VInt z3]>
         (<["num_gpu" := VInt z2]> (<["num_cpu" := VInt z1]> d0)))) = Ok d5 /\
    add_estimates describe_dict d5 = Ok d6 /\
    result = job_list ++ [foldl (fun d col => delete col d) d6 drop_cols].
Proof.
  intros E. unfold _add_job in E.
  apply bind_Ok in E as (d0 & E0 & E).
  apply bind_Ok in E as (d1 & E1 & E).
  apply bind_Ok in E as (d2 & E2 & E).
  apply bind_Ok in E as (d3 & E3 & E).
  apply bind_Ok in E as (d4 & E4 & E).
  apply bind_Ok in E as (d5 & E5 & E).
  apply bind_Ok in E as (d6 & E6 & E). cbv zeta in E. injection E as <-.
  pose proof (default_field_missing _ _ _ E1) as M1.
  pose proof (default_field_missing _ _ _ E2) as M2.
  pose proof (default_field_missing _ _ _ E3) as M3.
  pose proof (default_field_missing _ _ _ E4) as M4.
  apply default_field_Ok in E1 as [z1 ->].
  apply default_field_Ok in E2 as [z2 ->].
  apply default_field_Ok in E3 as [z3 ->].
  apply default_field_Ok in E4 as [z4 ->].
  exists d0, z1, z2, z3, z4, d5, d6. split; [done|].
  assert (Hval : forall (key : string) (z z' : Z) (d : job),
             <[key := VInt z]> d = <[key := VInt z']> d -> z = z').
  { intros key z z' d Heq.
    assert (Hl : (<[key := VInt z]> d) !! key = (<[key := VInt z']> d) !! key)
      by (by rewrite Heq).
    rewrite !lookup_insert_eq in Hl. by injection Hl. }
  split.
  { intros Hm. apply M1 in Hm. by apply Hval in Hm. }
  split.
  { intros Hm. eapply (Hval "num_gpu"), M2.
    unfold missing in *. by rewrite lookup_insert_ne. }
  split.
  { intros Hm. eapply (Hval "submit_time"), M3.
    unfold missing in *. by rewrite !lookup_insert_ne. }
  split.
  { intros Hm. eapply (Hval "num_inst"), M4.
    unfold missing in *. by rewrite !lookup_insert_ne. }
  done.
Qed.

Lemma add_scheduling_entries_fields d d' :
  add_scheduling_entries d = Ok d' ->
  exists g c,
    d !! "num_gpu" = Some (VInt g) /\ d !! "num_cpu" = Some (VInt c) /\
    d' !! "on_time" = Some (VInt 0) /\ d' !! "wasted" = Some (VInt 0) /\
    d' !! "jct" = Some (VInt (-1)) /\ d' !! "node" = Some VNone /\
    d' !! "resource" = Some (VList [VInt g; VInt c]) /\
    forall key,
      key ∉ ["duration"; "size"; "on_time"; "wasted"; "jct"; "resource"; "node"] ->
      d' !! key = d !! key.
Proof.
  unfold add_scheduling_entries. intros E.
  apply bind_Ok in E as (v & Ev & E).
  apply bind_Ok in E as (x & Ex & E).
  apply bind_Ok in E as (t & Et & E). cbv zeta in E.
  set (d2 := if t <=? 0
             then <["duration" := VInt 1]> (<["duration" := VInt t]> d)
             else <["duration" := VInt t]> d) in *.
  assert (Hother : forall k, k <> "duration" -> d2 !! k = d !! k).
  { intros k Hk. unfold d2. destruct (t <=? 0);
      by rewrite ?lookup_insert_ne. }
  apply bind_Ok in E as (g & Eg & E). apply get_int_Ok in Eg.
  apply bind_Ok in E as (c & Ec & E). apply get_int_Ok in Ec.
  apply bind_Ok in E as (dur & Ed & E).
  rewrite Hother in Eg, Ec by done. injection E as <-.
  exists g, c. split; [done|]. split; [done|].
  rewrite !lookup_insert_ne by done. rewrite !lookup_insert_eq.
  rewrite !lookup_insert_ne by done. rewrite !lookup_insert_eq.
  rewrite !lookup_insert_ne by done. rewrite !lookup_insert_eq.
  repeat (split; [done|]).
  split; [rewrite lookup_insert_ne by done; by rewrite lookup_insert_eq|].
  intros key Hkey. rewrite !lookup_insert_ne; [apply Hother|..];
    intros Heq; subst; apply Hkey; str_in.
Qed.

(** Through the stages after the first loop, a key that none of them
    writes or drops keeps its value. *)
Lemma add_job_untouched describe_dict (d0 : job) z1 z2 z3 z4 d5 d6 key :
  add_scheduling_entries
    (<["num_inst" := VInt z4]> (<["submit_time" := VInt z3]>
       (<["num_gpu" := VInt z2]> (<["num_cpu" := VInt z1]> d0)))) = Ok d5 ->
  add_estimates describe_dict d5 = Ok d6 ->
  key ∉ written_keys -> key ∉ drop_cols ->
  foldl (fun d col => delete col d) d6 drop_cols !! key = d0 !! key.
Proof.
  intros E5 E6 Hw Hd.
  rewrite drop_cols_lookup by done.
  rewrite (add_estimates_lookup _ _ _ _ E6)
    by (intros Hin; apply Hw; unfold written_keys; str_in).
  apply add_scheduling_entries_fields in E5 as (g & c & _ & _ & _ & _ & _ & _ & _ & Ho).
  rewrite Ho by (intros Hin; apply Hw; unfold written_keys; str_in).
  rewrite !lookup_insert_ne; [done|..];
    intros Heq; subst; apply Hw; unfold written_keys; str_in.
Qed.

End AddJobMore.

Ltac not_str_in :=
  let Hin := fresh "Hin" in
  intros Hin; unfold written_keys, drop_cols, dur_keys, percent_keys in Hin;
  repeat (apply elem_of_cons in Hin as [Hin|Hin]; [discriminate Hin|]);
  by apply elem_of_nil in Hin.

Section AddJobExtras.
Context `{PyFloat}.

(** The record [_add_job] appends: its resources and duration are ints,
    its other fields are those of the first loop unless a later stage
    writes or drops them. *)
Lemma add_job_built job_list job_dict describe_dict result :
  _add_job job_list job_dict describe_dict = Ok result ->
  exists (built d0 d5 : job) (g c dur : Z),
    result = job_list ++ [built] /\
    convert_row job_dict = Ok d0 /\
    built !! "num_gpu" = Some (VInt g) /\ built !! "num_cpu" = Some (VInt c) /\
    built !! "duration" = Some (VInt dur) /\
    (missing "num_gpu" d0 -> g = 0) /\ (missing "num_cpu" d0 -> c = 0) /\
    (forall key, key ∉ ["dur_avg"; "dur_std"; "dur_med"; "dur_trim_mean"] ->
                 key ∉ drop_cols -> built !! key = d5 !! key) /\
    d5 !! "on_time" = Some (VInt 0) /\ d5 !! "wasted" = Some (VInt 0) /\
    d5 !! "jct" = Some (VInt (-1)) /\ d5 !! "node" = Some VNone /\
    d5 !! "resource" = Some (VList [VInt g; VInt c]) /\
    (exists z3 z4, d5 !! "submit_time" = Some (VInt z3) /\
                   d5 !! "num_inst" = Some (VInt z4) /\
                   (missing "submit_time" d0 -> z3 = 1) /\
                   (missing "num_inst" d0 -> z4 = 1)) /\
    (forall key, key ∉ written_keys -> key ∉ drop_cols ->
                 built !! key = d0 !! key) /\
    (forall col, col ∈ drop_cols -> built !! col = None).
Proof.
  intros E.
  destruct (add_job_stages _ _ _ _ E)
    as (d0 & z1 & z2 & z3 & z4 & d5 & d6 & E0 & M1 & M2 & M3 & M4 & E5 & E6 & ->).
  pose proof (add_scheduling_entries_Ok _ _ E5)
    as (v & x & g & c & _ & _ & Hg4 & Hc4 & Hdur & Hg & Hc & _).
  pose proof (add_scheduling_entries_fields _ _ E5)
    as (g' & c' & Hg4' & Hc4' & Hon & Hwa & Hjct & Hnode & Hres & Hother).
  rewrite Hg4 in Hg4'. injection Hg4' as <-.
  rewrite Hc4 in Hc4'. injection Hc4' as <-.
  assert (Hbuilt : forall key,
             key ∉ ["dur_avg"; "dur_std"; "dur_med"; "dur_trim_mean"] ->
             key ∉ drop_cols ->
             foldl (fun d col => delete col d) d6 drop_cols !! key = d5 !! key).
  { intros key Hk Hd. rewrite drop_cols_lookup by done.
    apply (add_estimates_lookup _ _ _ _ E6).
    intros Hin. apply Hk. str_in. }
  exists (foldl (fun d col => delete col d) d6 drop_cols), d0, d5, g, c,
         (Z.max (Qtrunc x) 1).
  split; [done|]. split; [done|].
  rewrite !Hbuilt by not_str_in.
  split; [done|]. split; [done|]. split; [done|].
  rewrite !lookup_insert_ne in Hg4, Hc4 by done.
  rewrite lookup_insert_eq in Hg4. rewrite lookup_insert_ne in Hc4 by done.
  rewrite lookup_insert_eq in Hc4.
  injection Hg4 as <-. injection Hc4 as <-.
  split; [done|]. split; [done|]. split; [exact Hbuilt|].
  repeat (split; [done|]).
  split.
  { exists z3, z4. rewrite !Hother by not_str_in.
    rewrite lookup_insert_ne by done. rewrite !lookup_insert_eq. done. }
  split; [intros key Hw Hd; by eapply add_job_untouched|].
  intros col Hcol. by apply foldl_delete_removed.
Qed.

(** X10. A row that lacks [num_cpu] or [num_gpu], or holds the empty
    string there, gets 0 for it; one that lacks [submit_time] or
    [num_inst] gets 1. *)
Theorem add_job_defaults (job_list : list job) (job_dict : job)
    (describe_dict : option (gmap string job)) (result : list job) :
  _add_job job_list job_dict describe_dict = Ok result ->
  exists built,
    result = job_list ++ [built] /\
    (missing "num_cpu" job_dict -> built !! "num_cpu" = Some (VInt 0)) /\
    (missing "num_gpu" job_dict -> built !! "num_gpu" = Some (VInt 0)) /\
    (missing "submit_time" job_dict -> built !! "submit_time" = Some (VInt 1)) /\
    (missing "num_inst" job_dict -> built !! "num_inst" = Some (VInt 1)).
Proof.
  intros E.
  destruct (add_job_built _ _ _ _ E)
    as (built & d0 & d5 & g & c & dur & -> & E0 & Hg & Hc & _ & Mg & Mc & Hb
        & _ & _ & _ & _ & _ & (z3 & z4 & H3 & H4 & M3 & M4) & _).
  exists built. split; [done|].
  assert (Hm : forall key, key ∉ dur_keys -> missing key job_dict ->
                           missing key d0).
  { intros key Hk. by apply convert_row_missing. }
  split; [intros Hmiss; rewrite Hc, Mc; [done | apply Hm; [not_str_in | done]]|].
  split; [intros Hmiss; rewrite Hg, Mg; [done | apply Hm; [not_str_in | done]]|].
  split.
  - intros Hmiss. rewrite Hb by not_str_in. rewrite H3, M3; [done|].
    apply Hm; [not_str_in | done].
  - intros Hmiss. rewrite Hb by not_str_in. rewrite H4, M4; [done|].
    apply Hm; [not_str_in | done].
Qed.

(** X11. Every record [_add_job] appends starts with [on_time = 0],
    [wasted = 0], [jct = -1], [node = None] and [resource] equal to the
    list of its own [num_gpu] and [num_cpu], and holds none of the dropped
    trace columns. *)
Theorem add_job_fresh_fields (job_list : list job) (job_dict : job)
    (describe_dict : option (gmap string job)) (result : list job) :
  _add_job job_list job_dict describe_dict = Ok result ->
  exists built g c,
    result = job_list ++ [built] /\
    built !! "num_gpu" = Some (VInt g) /\ built !! "num_cpu" = Some (VInt c) /\
    built !! "resource" = Some (VList [VInt g; VInt c]) /\
    built !! "on_time" = Some (VInt 0) /\ built !! "wasted" = Some (VInt 0) /\
    built !! "jct" = Some (VInt (-1)) /\ built !! "node" = Some VNone /\
    forall col, col ∈ drop_cols -> built !! col = None.
Proof.
  intros E.
  destruct (add_job_built _ _ _ _ E)
    as (built & d0 & d5 & g & c & dur & Hres & E0 & Hg & Hc & _ & _ & _ & Hb
        & Hon & Hwa & Hjct & Hnode & Hrs & _ & _ & Hdrop).
  exists built, g, c. split; [done|]. split; [done|]. split; [done|].
  rewrite !Hb by not_str_in. repeat (split; [done|]). exact Hdrop.
Qed.

(** X12. The first loop turns a digit string into an int in every column
    but [user]: the user of the record is the row's string, digits or
    not, while another digit-string column that no later stage writes or
    drops (such as [job_id]) holds [round(float(s))]. *)
Theorem add_job_user_kept (job_list : list job) (job_dict : job)
    (describe_dict : option (gmap string job)) (result : list job) :
  _add_job job_list job_dict describe_dict = Ok result ->
  exists built,
    result = job_list ++ [built] /\
    (forall u, job_dict !! "user" = Some (VStr u) ->
               built !! "user" = Some (VStr u)) /\
    (forall key s (q : Q),
       key <> "user" -> key ∉ written_keys -> key ∉ drop_cols ->
       job_dict !! key = Some (VStr s) -> isdigit s = true ->
       float_of_str s = Some (Finite q) ->
       built !! key = Some (VInt (py_round q))).
Proof.
  intros E.
  destruct (add_job_built _ _ _ _ E)
    as (built & d0 & d5 & g & c & dur & -> & E0 & _ & _ & _ & _ & _ & _
        & _ & _ & _ & _ & _ & _ & Hkeep & _).
  exists built. split; [done|]. split.
  - intros u Hu. rewrite Hkeep by not_str_in.
    pose proof (convert_row_lookup job_dict d0 "user" E0) as Hrow.
    rewrite Hu in Hrow. destruct Hrow as (v' & Hc & ->).
    unfold convert_entry in Hc.
    rewrite (bool_decide_false ("user" <> "user")) in Hc by (intros Hne; by apply Hne).
    rewrite andb_false_r in Hc.
    rewrite bool_decide_false in Hc by not_str_in. by injection Hc as <-.
  - intros key s q Hne Hw Hd Hs Hdig Hq. rewrite Hkeep by done.
    pose proof (convert_row_lookup job_dict d0 key E0) as Hrow.
    rewrite Hs in Hrow. destruct Hrow as (v' & Hc & ->).
    unfold convert_entry in Hc.
    rewrite Hdig, bool_decide_true, Hq in Hc by done. simpl in Hc.
    by injection Hc as <-.
Qed.

(** X13. A row without [duration], or with [None] there, produces no
    record: [_add_job] raises. *)
Theorem add_job_needs_duration (job_list : list job) (job_dict : job)
    (describe_dict : option (gmap string job)) :
  job_dict !! "duration" = None \/ job_dict !! "duration" = Some VNone ->
  exists e, _add_job job_list job_dict describe_dict = Raise e.
Proof.
  intros Hdur.
  destruct (_add_job job_list job_dict describe_dict) as [result | e] eqn:E;
    [exfalso | by exists e].
  destruct (add_job_stages _ _ _ _ E)
    as (d0 & z1 & z2 & z3 & z4 & d5 & d6 & E0 & _ & _ & _ & _ & E5 & _ & _).
  apply add_scheduling_entries_Ok in E5
    as (v & x & g & c & Hv & Hx & _).
  rewrite !lookup_insert_ne in Hv by done.
  pose proof (convert_row_lookup job_dict d0 "duration" E0) as Hrow.
  destruct Hdur as [Hd | Hd]; rewrite Hd in Hrow.
  - congruence.
  - destruct Hrow as (v' & Hc & Hv'). rewrite Hv in Hv'. injection Hv' as <-.
    injection Hc as <-. discriminate.
Qed.

(** X14. A record built from a row that has a [job_id] is a job record,
    so the resource guard returns on a list built by [_add_job]. *)
Theorem add_job_then_prune (job_list : list job) (job_dict : job)
    (describe_dict : option (gmap string job)) (result : list job)
    (gpu_limit cpu_limit : Z) :
  Forall job_record job_list -> is_Some (job_dict !! "job_id") ->
  _add_job job_list job_dict describe_dict = Ok result ->
  Forall job_record result /\
  exists pruned log,
    large_job_pruning (Some result) gpu_limit cpu_limit = Ok (pruned, log).
Proof.
  intros Hall [vid Hid] E.
  destruct (add_job_built _ _ _ _ E)
    as (built & d0 & d5 & g & c & dur & -> & E0 & Hg & Hc & Hd & _ & _ & _
        & _ & _ & _ & _ & _ & _ & Hkeep & _).
  assert (Hrec : Forall job_record (job_list ++ [built])).
  { apply Forall_app. split; [done|]. constructor; [|constructor].
    split; [|split; [by eexists | split; by eexists]].
    rewrite Hkeep by not_str_in.
    pose proof (convert_row_lookup job_dict d0 "job_id" E0) as Hrow.
    rewrite Hid in Hrow. destruct Hrow as (v' & _ & ->). by eexists. }
  split; [exact Hrec|]. by apply prune_loop_total.
Qed.

Lemma convert_entry_user v v' : convert_entry "user" v = Ok v' -> v' = v.
Proof.
  destruct v as [|s|n|l]; unfold convert_entry; try discriminate.
  - by intros [= <-].
  - rewrite (bool_decide_false ("user" <> "user")) by (intros Hne; by apply Hne).
    rewrite andb_false_r.
    rewrite bool_decide_false by not_str_in. by intros [= <-].
Qed.

(** X15. With a [describe_dict], the row must have a [user]; when that
    user has a profile the record gets the four duration estimates as the
    floats of the profile's [mean], [std], [50%] and [trim_mean], and when
    it has none the record gets no estimate. *)
Theorem add_job_estimates (job_list : list job) (job_dict : job)
    (describe_dict : gmap string job) (result : list job) :
  _add_job job_list job_dict (Some describe_dict) = Ok result ->
  exists (built : job) (user : pyval),
    result = job_list ++ [built] /\
    job_dict !! "user" = Some user /\
    (forall profile, profile_of describe_dict user = Some profile ->
       exists avg std med trim,
         getitem profile "mean" ≫= py_float = Ok avg /\
         getitem profile "std" ≫= py_float = Ok std /\
         getitem profile "50%" ≫= py_float = Ok med /\
         getitem profile "trim_mean" ≫= py_float = Ok trim /\
         built !! "dur_avg" = Some (VFloat avg) /\
         built !! "dur_std" = Some (VFloat std) /\
         built !! "dur_med" = Some (VFloat med) /\
         built !! "dur_trim_mean" = Some (VFloat trim)) /\
    (profile_of describe_dict user = None ->
       forall key, key ∈ est_keys -> job_dict !! key = None ->
                   built !! key = None).
Proof.
  intros E.
  destruct (add_job_stages _ _ _ _ E)
    as (d0 & z1 & z2 & z3 & z4 & d5 & d6 & E0 & _ & _ & _ & _ & E5 & E6 & ->).
  pose proof (add_scheduling_entries_fields _ _ E5)
    as (g & c & _ & _ & _ & _ & _ & _ & _ & Hother).
  assert (Hu5 : d5 !! "user" = d0 !! "user").
  { rewrite Hother by not_str_in. by rewrite !lookup_insert_ne. }
  unfold add_estimates in E6.
  apply bind_Ok in E6 as (user & Eu & E6). apply getitem_Ok in Eu.
  apply bind_Ok in E6 as (k & Ek & E6).
  rewrite Hu5 in Eu.
  pose proof (convert_row_lookup job_dict d0 "user" E0) as Hrow.
  destruct (job_dict !! "user") as [uv|] eqn:Huv; [|congruence].
  destruct Hrow as (v' & Hc & Hv'). rewrite Eu in Hv'. injection Hv' as <-.
  apply convert_entry_user in Hc as ->.
  eexists _, uv. split; [done|]. split; [done|]. split.
  - intros profile Hp. destruct uv as [|name|n|l]; try discriminate Hp.
    simpl in Hp. injection Ek as <-. rewrite Hp in E6.
    apply bind_Ok in E6 as (avg & Eavg & E6).
    apply bind_Ok in E6 as (std & Estd & E6).
    apply bind_Ok in E6 as (med & Emed & E6).
    apply bind_Ok in E6 as (trim & Etrim & E6).
    injection E6 as <-.
    exists avg, std, med, trim. repeat (split; [done|]).
    rewrite !drop_cols_lookup by not_str_in.
    rewrite lookup_insert_eq.
    rewrite !(lookup_insert_ne _ "dur_trim_mean") by done.
    rewrite lookup_insert_eq.
    rewrite !(lookup_insert_ne _ "dur_med") by done.
    rewrite lookup_insert_eq.
    rewrite !(lookup_insert_ne _ "dur_std") by done.
    by rewrite lookup_insert_eq.
  - intros Hp key Hkey Hnone.
    assert (d6 = d5) as ->.
    { destruct uv as [|name|n|l]; simpl in Ek.
      - injection Ek as <-. by injection E6 as <-.
      - injection Ek as <-. simpl in Hp. rewrite Hp in E6.
        by injection E6 as <-.
      - destruct (num_float n); try discriminate Ek;
          injection Ek as <-; by injection E6 as <-.
      - discriminate Ek. }
    pose proof (convert_row_lookup job_dict d0 key E0) as Hrow.
    rewrite Hnone in Hrow.
    unfold est_keys in Hkey.
    repeat (apply elem_of_cons in Hkey as [->|Hkey];
            [rewrite drop_cols_lookup by not_str_in;
             rewrite Hother by not_str_in;
             by rewrite !lookup_insert_ne by done|]).
    by apply elem_of_nil in Hkey.
Qed.

End AddJobExtras.

Example add_job_digit_row :
  @_add_job exact_float [] digit_row None = Ok [built_digit_row].
Proof. reflexivity. Qed.

Lemma add_job_defaults_witness :
  exists built,
    @_add_job exact_float [] digit_row None = Ok [built] /\
    built !! "num_cpu" = Some (VInt 0) /\
    built !! "num_gpu" = Some (VInt 0) /\
    built !! "submit_time" = Some (VInt 1) /\
    built !! "num_inst" = Some (VInt 1).
Proof.
  destruct (@add_job_defaults exact_float [] digit_row None [built_digit_row]
              add_job_digit_row)
    as (built & Hres & Hc & Hg & Hs & Hi).
  exists built. split; [injection Hres as <-; exact add_job_digit_row|].
  split; [apply Hc; left; reflexivity|].
  split; [apply Hg; right; reflexivity|].
  split; [apply Hs; left; reflexivity | apply Hi; left; reflexivity].
Defined.

Lemma add_job_fresh_fields_witness :
  exists built,
    @_add_job exact_float [] raw_row None = Ok [built] /\
    built !! "resource" = Some (VList [VInt 100; VInt 600]) /\
    built !! "jct" = Some (VInt (-1)) /\ built !! "node" = Some VNone /\
    built !! "status" = None.
Proof.
  destruct (@add_job_fresh_fields exact_float [] raw_row None [built_row]
              add_job_raw_row)
    as (built & g & c & Hres & Hg & Hc & Hrs & _ & _ & Hjct & Hnode & Hdrop).
  injection Hres as <-.
  exists built_row. split; [exact add_job_raw_row|].
  split; [reflexivity|]. split; [exact Hjct|]. split; [exact Hnode|].
  apply Hdrop. unfold drop_cols. str_in.
Defined.

Lemma add_job_user_kept_witness :
  exists built,
    @_add_job exact_float [] digit_row None = Ok [built] /\
    built !! "user" = Some (VStr "42") /\
    built !! "job_id" = Some (VInt 7).
Proof.
  destruct (@add_job_user_kept exact_float [] digit_row None [built_digit_row]
              add_job_digit_row)
    as (built & Hres & Hu & Hk).
  exists built. split; [injection Hres as <-; exact add_job_digit_row|].
  split; [apply Hu; reflexivity|].
  apply (Hk "job_id" "7" (inject_Z 7));
    [done | not_str_in | not_str_in | reflexivity | reflexivity | reflexivity].
Defined.

Lemma add_job_needs_duration_witness :
  exists e, @_add_job exact_float [] no_duration_row None = Raise e.
Proof.
  apply (@add_job_needs_duration exact_float [] no_duration_row None).
  left. reflexivity.
Defined.

Example add_job_described :
  @_add_job exact_float [] raw_row (Some describe_u1) = Ok [described_row].
Proof. reflexivity. Qed.

Lemma add_job_estimates_witness :
  exists built,
    @_add_job exact_float [] raw_row (Some describe_u1) = Ok [built] /\
    built !! "dur_avg" = Some (VFloat 30%Q) /\
    built !! "dur_std" = Some (VFloat 4%Q) /\
    built !! "dur_med" = Some (VFloat 28%Q) /\
    built !! "dur_trim_mean" = Some (VFloat 29%Q).
Proof.
  destruct (@add_job_estimates exact_float [] raw_row describe_u1
              [described_row] add_job_described)
    as (built & user & Hres & Hu & Hprof & _).
  assert (user = VStr "u1") as -> by (by injection Hu as <-).
  destruct (Hprof profile_u1 eq_refl)
    as (avg & std & med & trim & Ea & Es & Em & Et & Ha & Hs & Hm & Ht).
  assert (avg = Finite 30) as -> by (by injection Ea as <-).
  assert (std = Finite 4) as -> by (by injection Es as <-).
  assert (med = Finite 28) as -> by (by injection Em as <-).
  assert (trim = Finite 29) as -> by (by injection Et as <-).
  exists built. split; [injection Hres as <-; exact add_job_described|].
  done.
Defined.

Lemma add_job_then_prune_witness :
  Forall job_record [built_digit_row] /\
  exists pruned log,
    large_job_pruning (Some [built_digit_row]) 100 1000 = Ok (pruned, log).
Proof.
  apply (@add_job_then_prune exact_float [] digit_row None [built_digit_row]
           100 1000);
    [constructor | by eexists | exact add_job_digit_row].
Defined.

(** ** Job record builder and lottery *)

Section AddJobLottery.
Context `{PyFloat}.

Lemma lottery_sort_returns randint jobs :
  valid_randint randint -> Forall finite_dur jobs ->
  exists sorted ts,
    lottery_sort randint jobs = Ok sorted /\ sorted ≡ₚ with_tickets jobs ts.
Proof.
  intros Hrand Hnum.
  destruct (lottery_assign_inv jobs (LState [] [] 0) Hnum)
    as (st0 & ts & E0 & Hinv0 & Hts & Hjobs).
  { split; [done|]. split; [constructor|]. simpl. discriminate. }
  simpl in Hjobs.
  destruct (lottery_loop_inv randint (length (job_list st0)) 0 st0
              Hrand Hinv0) as (st & E & _ & Hp); [lia|].
  exists (job_list st), ts. unfold lottery_sort.
  rewrite E0, bind_Ok_l, E, bind_Ok_l. split; [done|].
  by rewrite Hp, Hjobs.
Qed.

(** X16. A record built from a row whose [group_gpu_dur] parses as a
    finite float holds it as an int or a finite float, so a list built by
    [_add_job] from such rows can be lottery-sorted: with draws in range,
    [lottery_sort] returns a permutation of the list. *)
Theorem add_job_then_lottery (randint : rand_source) (job_list : list job)
    (job_dict : job) (describe_dict : option (gmap string job))
    (result : list job) (s : string) (q : Q) :
  valid_randint randint -> Forall finite_dur job_list ->
  job_dict !! "group_gpu_dur" = Some (VStr s) ->
  float_of_str s = Some (Finite q) ->
  _add_job job_list job_dict describe_dict = Ok result ->
  Forall finite_dur result /\
  exists sorted ts,
    lottery_sort randint result = Ok sorted /\
    sorted ≡ₚ with_tickets result ts.
Proof.
  intros Hrand Hall Hs Hq E.
  destruct (add_job_built _ _ _ _ E)
    as (built & d0 & d5 & g & c & dur & -> & E0 & _ & _ & _ & _ & _ & _
        & _ & _ & _ & _ & _ & _ & Hkeep & _).
  assert (Hnum : Forall finite_dur (job_list ++ [built])).
  { apply Forall_app. split; [done|]. constructor; [|constructor].
    unfold finite_dur. rewrite Hkeep by not_str_in.
    pose proof (convert_row_lookup job_dict d0 "group_gpu_dur" E0) as Hrow.
    rewrite Hs in Hrow. destruct Hrow as (v' & Hc & ->).
    unfold convert_entry in Hc. rewrite Hq in Hc.
    destruct (isdigit s && bool_decide ("group_gpu_dur" <> "user")).
    - injection Hc as <-. by eexists.
    - rewrite bool_decide_true in Hc by (unfold dur_keys; str_in).
      injection Hc as <-. by eexists. }
  split; [exact Hnum|]. by apply lottery_sort_returns.
Qed.

End AddJobLottery.

Example add_job_gpu_row :
  @_add_job exact_float [] gpu_row None = Ok [built_gpu_row].
Proof. reflexivity. Qed.

Lemma add_job_then_lottery_witness :
  Forall finite_dur [built_gpu_row] /\
  exists sorted ts,
    @lottery_sort exact_float high_then_low [built_gpu_row] = Ok sorted /\
    sorted ≡ₚ with_tickets [built_gpu_row] ts.
Proof.
  apply (@add_job_then_lottery exact_float high_then_low [] gpu_row None
           [built_gpu_row] "30" (inject_Z 30));
    [exact high_then_low_valid | constructor | reflexivity | reflexivity
     | exact add_job_gpu_row].
Defined.

(** ** Replay buffer, further *)

Lemma add_all_batch_size rb es :
  ReplayBuffer.batch_size (add_all rb es) = ReplayBuffer.batch_size rb.
Proof.
  induction es as [|e es IH] using rev_ind; [done|].
  by rewrite add_all_snoc.
Qed.

Lemma add_all_len action_size buffer_size batch_size seed es :
  ReplayBuffer.len
    (add_all (ReplayBuffer.init action_size buffer_size batch_size seed) es)
  = (length es `min` N.to_nat buffer_size)%nat.
Proof. unfold ReplayBuffer.len. rewrite add_all_items, length_drop. lia. Qed.

(** X17. After any adds to a fresh buffer, the buffer's length is the
    number of adds capped at the capacity.  With a draw without
    replacement, [sample] raises ValueError while fewer than [batch_size]
    experiences are stored, and also when [batch_size] is 0 (there is
    nothing to stack); when the stored experiences have states of one
    length and next states of one length, it returns [batch_size]
    experiences drawn from the stored ones, the last [buffer_size]
    added. *)
Theorem sample_after_adds (random_sample : sampler) (action_size : nat)
    (buffer_size : N) (batch_size : nat) (seed : Z) (es : list Experience) :
  valid_sampler random_sample ->
  let rb :=
    add_all (ReplayBuffer.init action_size buffer_size batch_size seed) es in
  let stored := drop (length es - N.to_nat buffer_size) es in
  ReplayBuffer.len rb = (length es `min` N.to_nat buffer_size)%nat /\
  ((length es `min` N.to_nat buffer_size < batch_size)%nat ->
     ReplayBuffer.sample random_sample rb = Raise ValueError) /\
  (batch_size = 0%nat ->
     ReplayBuffer.sample random_sample rb = Raise ValueError) /\
  (forall n m,
     (0 < batch_size <= length es `min` N.to_nat buffer_size)%nat ->
     Forall (fun e => length (state e) = n /\ length (next_state e) = m)
            stored ->
     ReplayBuffer.sample random_sample rb
       = Ok (random_sample stored batch_size) /\
     length (random_sample stored batch_size) = batch_size /\
     random_sample stored batch_size ⊆+ stored).
Proof.
  intros Hvalid rb stored.
  assert (Hlen : ReplayBuffer.len rb
                 = (length es `min` N.to_nat buffer_size)%nat)
    by apply add_all_len.
  assert (Hitems : items (ReplayBuffer.memory rb) = stored)
    by apply add_all_items.
  assert (Hsize : ReplayBuffer.batch_size rb = batch_size)
    by apply add_all_batch_size.
  split; [exact Hlen|]. split; [|split].
  - intros Hlt. unfold ReplayBuffer.sample.
    rewrite Hsize, Hlen. by rewrite decide_False by lia.
  - intros ->. unfold ReplayBuffer.sample.
    rewrite Hsize, Hitems. rewrite decide_True by lia. cbv zeta.
    destruct (Hvalid stored 0%nat) as [Hnil _]; [lia|].
    apply nil_length_inv in Hnil. by rewrite Hnil.
  - intros n m Hb Hall.
    rewrite (sample_stacks random_sample rb n m Hvalid).
    + rewrite Hsize, Hitems. split; [done|].
      apply Hvalid. unfold stored. rewrite length_drop. lia.
    + rewrite Hsize, Hlen. lia.
    + by rewrite Hitems.
Qed.

Lemma sample_after_adds_witness :
  ReplayBuffer.sample (fun population k => take k population)
    (add_all (ReplayBuffer.init 2 2 1 0) [exp_n 1; exp_n 2; exp_n 3])
  = Ok [exp_n 2] /\
  ReplayBuffer.sample (fun population k => take k population)
    (add_all (ReplayBuffer.init 2 2 0 0) [exp_n 1; exp_n 2; exp_n 3])
  = Raise ValueError.
Proof.
  split.
  - destruct (sample_after_adds (fun population k => take k population)
                2 2 1 0 [exp_n 1; exp_n 2; exp_n 3] take_valid_sampler)
      as (_ & _ & _ & Hok).
    destruct (Hok 1%nat 0%nat) as [E _].
    + simpl. lia.
    + repeat constructor.
    + exact E.
  - destruct (sample_after_adds (fun population k => take k population)
                2 2 0 0 [exp_n 1; exp_n 2; exp_n 3] take_valid_sampler)
      as (_ & _ & Hzero & _).
    by apply Hzero.
Defined.

(** ** DQN agent, further *)

Section AgentRuns.
Context `{Torch}.





(** X19. On a state vector of the agent's state size, when the local
    network gives one value per action, there is at least one action and
    [random.choice] draws its index below the length of its argument,
    [act] returns an action of the action space, whatever [eps] and the
    draw are. *)
Theorem act_valid_action (self : DQNAgent.t) (s : list Q) (eps u : Q)
    (randbelow : nat -> nat) :
  length s = DQNAgent.state_size self ->
  length (forward (DQNAgent.qnetwork_local self) s) = DQNAgent.action_size self ->
  valid_randbelow randbelow -> (0 < DQNAgent.action_size self)%nat ->
  exists a, DQNAgent.act self s eps u randbelow = Ok a /\
            (a < DQNAgent.action_size self)%nat.
Proof.
  intros Hs Hout Hvalid Hpos. unfold DQNAgent.act, torch_check.
  rewrite (proj2 (Nat.eqb_eq _ _) Hs), bind_Ok_l.
  destruct (negb (Qle_bool u eps)).
  - destruct (np_argmax (forward (DQNAgent.qnetwork_local self) s))
      as [a|e] eqn:Ea.
    + exists a. split; [done|].
      destruct (np_argmax_spec _ _ Ea) as (x & Hx & _).
      apply lookup_lt_Some in Hx. lia.
    + destruct (forward (DQNAgent.qnetwork_local self) s); simpl in *;
        [lia | discriminate].
  - exists (randbelow (DQNAgent.action_size self)).
    split; [|by apply Hvalid].
    unfold random_choice, np_arange.
    destruct (seq 0 (DQNAgent.action_size self)) as [|x l] eqn:Eseq.
    + apply (f_equal length) in Eseq. rewrite length_seq in Eseq.
      simpl in Eseq. lia.
    + rewrite <- Eseq, length_seq. unfold list_getitem.
      rewrite lookup_seq_lt; [done|]. by apply Hvalid.
Qed.

End AgentRuns.


Lemma act_valid_action_witness :
  exists a,
    @DQNAgent.act two_actions (@DQNAgent.init two_actions 10 2 0)
      state10 (1 # 10) (1 # 2) (fun _ => 0%nat) = Ok a /\
    (a < 2)%nat.
Proof.
  apply (@act_valid_action two_actions (@DQNAgent.init two_actions 10 2 0)
           state10 (1 # 10) (1 # 2) (fun _ => 0%nat));
    [reflexivity | reflexivity | intros n Hn; exact Hn | simpl; lia].
Defined.
